(** * cimbar: the colour-icon-matrix barcode codec, [cimbar/cimbar.py]

    A shallow embedding of the orchestration module of the codec: the page
    constants, the per-cell decoder with its drift search, the decode
    generator with its temporary directory, the construction of the byte
    pipelines and the page renderer. *)

From Stdlib Require Import ZArith Strings.Byte Strings.Ascii.
From stdpp Require Import base list strings gmap sorting.

Local Open Scope Z_scope.

(** ** Page constants *)

Definition TOTAL_SIZE : Z := 1024.
Definition BITS_PER_SYMBOL : Z := 4.
Definition BITS_PER_COLOR : Z := 2.
Definition BITS_PER_OP : Z := BITS_PER_SYMBOL + BITS_PER_COLOR.
Definition CELL_SIZE : Z := 8.
Definition CELL_SPACING : Z := CELL_SIZE + 1.
Definition CELL_DIMENSIONS : Z := 112.
Definition CELLS_OFFSET : Z := 8.
Definition ECC : Z := 30.
Definition INTERLEAVE_BLOCKS : Z := 155.
Definition INTERLEAVE_PARTITIONS : Z := 2.
Definition FOUNTAIN_BLOCKS : Z := 10.

(** ** Python results

    A call either returns a value or raises.  [UnboundLocalError] carries the
    name of the local that was read before any assignment; [Failure] stands
    for whatever an external collaborator raises. *)

Inductive PyError : Type :=
  | UnboundLocalError (name : string)
  | KeyError (key : nat)
  | Failure (what : string).

Inductive result (A : Type) : Type :=
  | Ok (a : A)
  | Raise (e : PyError).
Arguments Ok {A} a.
Arguments Raise {A} e.

#[global] Instance result_ret : MRet result := fun _ a => Ok a.
#[global] Instance result_bind : MBind result := fun _ _ k r =>
  match r with
  | Ok a => k a
  | Raise e => Raise e
  end.
#[global] Instance result_fmap : FMap result := fun _ _ f r =>
  match r with
  | Ok a => Ok (f a)
  | Raise e => Raise e
  end.

(** ** Images

    A [PIL.Image] as the module uses it: a size and a pixel store.  Reading
    outside the stored rectangle gives black, which is what [crop] produces
    for the part of a box that leaves the image. *)

Definition pixel : Type := Z * Z * Z.

Definition black : pixel := (0, 0, 0).
Definition white : pixel := (255, 255, 255).

Record Image : Type := mkImage {
  size : Z * Z;
  load : Z -> Z -> pixel
}.

Definition width (im : Image) : Z := fst (size im).
Definition height (im : Image) : Z := snd (size im).

Definition inside (im : Image) (i j : Z) : bool :=
  (0 <=? i) && (i <? width im) && (0 <=? j) && (j <? height im).

Definition getpixel (im : Image) (i j : Z) : pixel :=
  if inside im i j then load im i j else black.

(** [Image.new('RGB', (w, h), color)] *)
Definition Image_new (wh : Z * Z) (color : pixel) : Image :=
  mkImage wh (fun _ _ => color).

(** [im.crop((left, upper, right, lower))] *)
Definition crop (im : Image) (box : Z * Z * Z * Z) : Image :=
  let '(x0, y0, x1, y1) := box in
  mkImage (x1 - x0, y1 - y0)
          (fun i j => getpixel im (x0 + i) (y0 + j)).

(** [im.paste(src, (x, y))]: the pixels of [src] replace those of [im] in the
    rectangle of [src]'s size whose upper left corner is [(x, y)]; the size of
    [im] stays. *)
Definition paste (im src : Image) (xy : Z * Z) : Image :=
  let '(x, y) := xy in
  mkImage (size im)
          (fun i j => if inside src (i - x) (j - y)
                      then load src (i - x) (j - y)
                      else load im i j).

(** ** Collaborators of the cell codec

    [CimbDecoder] and [CimbEncoder] live in [cimbar.encode.cimb_translator];
    the module only calls their methods, so they enter as records of
    functions. *)

Record CimbDecoder : Type := mkCimbDecoder {
  decode_symbol : Image -> Z * Z;   (* (bits, min_distance) *)
  decode_color : Image -> Z
}.

Record CimbEncoder : Type := mkCimbEncoder {
  ct_encode : Z -> Image
}.

(** The drift hint handed out by the decode order: [drift.x], [drift.y] and
    the search set [drift.pairs]. *)
Record Drift : Type := mkDrift {
  drift_x : Z;
  drift_y : Z;
  pairs : list (Z * Z)
}.

(** ** [_fountain_chunk_size]

    [int(a / b)] on Python integers: true division, then truncation toward
    zero.  For operands of this size (below 2^53) the quotient in floating
    point truncates to the same integer as the exact quotient.  The divisor
    is [fountain_blocks], 10 in every call of the module. *)
Definition int_truediv (a b : Z) : Z := Z.quot a b.

Definition _fountain_chunk_size (ecc bits_per_op fountain_blocks : Z) : Z :=
  int_truediv ((155 - ecc) * bits_per_op * 10) fountain_blocks.

(** ** [_decode_cell] *)

(** The [for dx, dy in drift.pairs] loop.  [best] holds [best_bits],
    [best_dx], [best_dy], which are assigned together and are unbound
    ([None]) until the first assignment. *)
Fixpoint _decode_cell_search (ct : CimbDecoder) (img : Image) (x y : Z)
    (drift : Drift) (todo : list (Z * Z))
    (best_distance : Z) (best : option (Z * Z * Z)) : Z * option (Z * Z * Z) :=
  match todo with
  | [] => (best_distance, best)
  | (dx, dy) :: todo' =>
      let testX := x + drift_x drift + dx in
      let testY := y + drift_y drift + dy in
      let img_cell := crop img (testX, testY, testX + CELL_SIZE, testY + CELL_SIZE) in
      let '(bits, min_distance) := decode_symbol ct img_cell in
      let best_distance := Z.min min_distance best_distance in
      let best := if min_distance =? best_distance then Some (bits, dx, dy) else best in
      if min_distance <? 8 then (best_distance, best)
      else _decode_cell_search ct img x y drift todo' best_distance best
  end.

Definition _decode_cell (ct : CimbDecoder) (img color_img : Image) (x y : Z)
    (drift : Drift) : result (Z * Z * Z * Z) :=
  let '(best_distance, best) :=
    _decode_cell_search ct img x y drift (pairs drift) 1000 None in
  match best with
  | None => Raise (UnboundLocalError "best_dx")
  | Some (best_bits, best_dx, best_dy) =>
      let testX := x + drift_x drift + best_dx in
      let testY := y + drift_y drift + best_dy in
      let best_cell :=
        crop color_img (testX + 1, testY + 1, testX + CELL_SIZE - 2, testY + CELL_SIZE - 2) in
      Ok (best_bits + decode_color ct best_cell, best_dx, best_dy, best_distance)
  end.

(** ** The world outside the module

    Files named by the caller hold bytes or an image; a temporary directory
    holds the files written into it.  [TemporaryDirectory()] brings a fresh
    directory into existence and leaving its [with] block removes it with
    its contents. *)

Record World : Type := mkWorld {
  data_files : gmap string (list byte);
  image_files : gmap string Image;
  tempdirs : gmap nat (gmap string Image);
  next_tempdir : nat
}.

Inductive path : Type :=
  | user_path (name : string)
  | temp_path (dir : nat) (name : string).

Definition py (A : Type) : Type := World -> World * result A.

#[global] Instance py_ret : MRet py := fun _ a w => (w, Ok a).
#[global] Instance py_bind : MBind py := fun _ _ k m w =>
  match m w with
  | (w', Ok a) => k a w'
  | (w', Raise e) => (w', Raise e)
  end.

Definition lift {A : Type} (r : result A) : py A := fun w => (w, r).

Definition TemporaryDirectory : py nat := fun w =>
  let d := next_tempdir w in
  (mkWorld (data_files w) (image_files w) (<[d := ∅]> (tempdirs w)) (S d), Ok d).

(** [with tempdir: pass] *)
Definition with_tempdir_pass (d : nat) : py unit := fun w =>
  (mkWorld (data_files w) (image_files w) (delete d (tempdirs w)) (next_tempdir w), Ok tt).

Definition lookup_image (w : World) (p : path) : option Image :=
  match p with
  | user_path name => image_files w !! name
  | temp_path d name => tempdirs w !! d ≫= fun files => files !! name
  end.

Definition store_image (w : World) (p : path) (im : Image) : World :=
  match p with
  | user_path name =>
      mkWorld (data_files w) (<[name := im]> (image_files w)) (tempdirs w) (next_tempdir w)
  | temp_path d name =>
      mkWorld (data_files w) (image_files w)
              (alter (fun files => <[name := im]> files) d (tempdirs w)) (next_tempdir w)
  end.

(** [Image.open(path)] *)
Definition Image_open (p : path) : py Image := fun w =>
  match lookup_image w p with
  | Some im => (w, Ok im)
  | None => (w, Raise (Failure "FileNotFoundError"))
  end.

(** [img.save(path)] *)
Definition Image_save (im : Image) (p : path) : py unit := fun w =>
  (store_image w p im, Ok tt).

(** [path.basename]: what follows the last slash. *)
Fixpoint basename_from (acc s : string) : string :=
  match s with
  | EmptyString => acc
  | String c s' =>
      if Ascii.eqb c "/"%char then basename_from EmptyString s'
      else basename_from (acc +:+ String c EmptyString) s'
  end.
Definition basename (s : string) : string := basename_from EmptyString s.

(** ** The decode generator *)

(** [FloodDecodeOrder] is iterated by the [for] loop and fed back through
    [decode_order.update(best_dx, best_dy, best_distance)] after every cell:
    what it yields next depends on the measurements so far.  An order is
    either exhausted or yields [(i, (x, y), drift)] and continues according
    to the update it receives. *)
Inductive DecodeOrder : Type :=
  | Exhausted
  | Yield (i : nat) (xy : Z * Z) (drift : Drift)
          (update : Z -> Z -> Z -> DecodeOrder).

(** What the module imports and calls but does not define. *)
Record Collaborators : Type := mkCollaborators {
  (* [deskewer(src_image, temp_image, dark, auto_dewarp)] on the image
     stored at [src_image]: the dimensions it reports and the warped image
     it stores at [temp_image] *)
  deskewer : Image -> bool -> bool -> result ((Z * Z) * Image);
  (* [CimbDecoder(dark, symbol_bits, color_bits)] *)
  new_CimbDecoder : bool -> Z -> Z -> CimbDecoder;
  (* [CimbEncoder(dark, symbol_bits, color_bits)] *)
  new_CimbEncoder : bool -> Z -> Z -> CimbEncoder;
  (* the cv2 filter chain of [_preprocess_for_decode]: the 3x3 kernel with
     8.5 at its centre and -1 around it, then the conversion to grayscale *)
  sharpen_to_gray : Image -> Image;
  (* [cell_positions(spacing, dimensions, offset)] *)
  cell_positions : Z -> Z -> Z -> list (Z * Z);
  (* [FloodDecodeOrder(cell_pos, AdjacentCellFinder(cell_pos, dimensions))] *)
  FloodDecodeOrder : list (Z * Z) -> Z -> DecodeOrder;
  (* the bitmaps under [bitmap/] *)
  bitmap : string -> Image;
  (* what a [reed_solomon_stream] over [ecc] parity bytes hands on: in read
     mode the first [n] bytes it produces from a reader of its source, in
     write mode the bytes it passes down for the bytes written to it *)
  rs_read : Z -> (nat -> list byte) -> nat -> list byte;
  rs_write : Z -> list byte -> list byte;
  (* the first [n] bytes a [fountain_encoder_stream] of the given chunk size
     produces from the contents of its file, and what a
     [fountain_decoder_stream] leaves in its file for the bytes written *)
  fountain_read : Z -> list byte -> nat -> list byte;
  fountain_write : Z -> list byte -> list byte
}.

Definition detect_and_deskew (E : Collaborators) (src_image : string)
    (temp_image : path) (dark auto_dewarp : bool) : py (Z * Z) :=
  src ← Image_open (user_path src_image);
  '(dims, warped) ← lift (deskewer E src dark auto_dewarp);
  _ ← Image_save warped temp_image;
  mret dims.

Definition _preprocess_for_decode (E : Collaborators) (img : Image) : Image :=
  sharpen_to_gray E img.

(** The [for i, (x, y), drift in decode_order] loop, run until the order is
    exhausted; the list holds the pairs the generator yields. *)
Fixpoint decode_iter_cells (ct : CimbDecoder) (img color_img : Image)
    (decode_order : DecodeOrder) : result (list (nat * Z)) :=
  match decode_order with
  | Exhausted => Ok []
  | Yield i (x, y) drift update =>
      '(best_bits, best_dx, best_dy, best_distance) ←
        _decode_cell ct img color_img x y drift;
      rest ← decode_iter_cells ct img color_img (update best_dx best_dy best_distance);
      Ok ((i, best_bits) :: rest)
  end.

(** The head of [decode_iter], up to the image it decodes from:
    [(tempdir, should_preprocess, color_img)]. *)
Definition decode_iter_open (E : Collaborators) (src_image : string)
    (dark force_preprocess deskew auto_dewarp : bool)
    : py (option nat * bool * Image) :=
  let should_preprocess := force_preprocess in
  if deskew then
    tempdir ← TemporaryDirectory;
    let temp_img := temp_path tempdir (basename src_image) in
    dims ← detect_and_deskew E src_image temp_img dark auto_dewarp;
    let should_preprocess :=
      should_preprocess || ((fst dims <? TOTAL_SIZE) || (snd dims <? TOTAL_SIZE)) in
    color_img ← Image_open temp_img;
    mret (Some tempdir, should_preprocess, color_img)
  else
    color_img ← Image_open (user_path src_image);
    mret (None, should_preprocess, color_img).

(** The two images [decode_iter] hands to [_decode_cell]: [(img, color_img)]. *)
Definition decode_iter_images (E : Collaborators) (should_preprocess : bool)
    (color_img : Image) : Image * Image :=
  let img := if should_preprocess then _preprocess_for_decode E color_img else color_img in
  (img, color_img).

Definition decode_iter (E : Collaborators) (src_image : string)
    (dark force_preprocess deskew auto_dewarp : bool) : py (list (nat * Z)) :=
  '(tempdir, should_preprocess, color_img) ←
    decode_iter_open E src_image dark force_preprocess deskew auto_dewarp;
  let ct := new_CimbDecoder E dark BITS_PER_SYMBOL BITS_PER_COLOR in
  let '(img, color_img) := decode_iter_images E should_preprocess color_img in
  let cell_pos := cell_positions E CELL_SPACING CELL_DIMENSIONS CELLS_OFFSET in
  let decode_order := FloodDecodeOrder E cell_pos CELL_DIMENSIONS in
  yielded ← lift (decode_iter_cells ct img color_img decode_order);
  _ ← (match tempdir with
       | Some d => with_tempdir_pass d
       | None => mret tt
       end : py unit);
  mret yielded.

(** ** The byte pipelines

    [decode] and [encode_iter] build their stream by nesting constructors;
    a [Stream] records which ones were nested. *)

Inductive Stream : Type :=
  | open_file (name : string) (mode : string)
  | fountain_encoder_stream (src : string) (chunk_size : Z)
  | fountain_decoder_stream (outfile : string) (chunk_size : Z)
  | reed_solomon_stream (f : Stream) (ecc : Z) (mode : option string).

(** The truth value of a Python integer. *)
Definition truthy (n : Z) : bool := negb (n =? 0).

(** The first two statements of the pipeline set-up in [decode]. *)
Definition decode_outstream (outfile : string) (ecc : Z) (fountain : bool) : Stream :=
  let fds :=
    if fountain
    then fountain_decoder_stream outfile (_fountain_chunk_size ecc BITS_PER_OP FOUNTAIN_BLOCKS)
    else open_file outfile "wb" in
  let rss := if truthy ecc then reed_solomon_stream fds ecc (Some "write") else fds in
  rss.

(** The first three statements of [encode_iter]: [(rss, read_size)]. *)
Definition encode_instream (src_data : string) (ecc : Z) (fountain : bool) : Stream * Z :=
  let fes :=
    if fountain
    then fountain_encoder_stream src_data (_fountain_chunk_size ecc BITS_PER_OP FOUNTAIN_BLOCKS)
    else open_file src_data "rb" in
  let rss := if truthy ecc then reed_solomon_stream fes ecc None else fes in
  let read_size := if fountain then _fountain_chunk_size ecc BITS_PER_OP FOUNTAIN_BLOCKS else 16384 in
  (rss, read_size).

Definition has_reed_solomon (s : Stream) : bool :=
  match s with
  | reed_solomon_stream _ _ _ => true
  | _ => false
  end.

(** Reading a stream: the function that gives the first [n] bytes it
    produces.  Opening a file that does not exist raises. *)
Fixpoint open_reader (E : Collaborators) (w : World) (s : Stream)
    : result (nat -> list byte) :=
  match s with
  | open_file name _ =>
      match data_files w !! name with
      | Some contents => Ok (fun n => take n contents)
      | None => Raise (Failure "FileNotFoundError")
      end
  | fountain_encoder_stream src chunk_size =>
      match data_files w !! src with
      | Some contents => Ok (fountain_read E chunk_size contents)
      | None => Raise (Failure "FileNotFoundError")
      end
  | reed_solomon_stream f ecc _ =>
      reader ← open_reader E w f;
      Ok (rs_read E ecc reader)
  | fountain_decoder_stream _ _ => Raise (Failure "UnsupportedOperation")
  end.

(** Writing [data] to a stream and closing it: the file at the bottom of
    the stream and what it then holds. *)
Fixpoint write_all (E : Collaborators) (s : Stream) (data : list byte)
    : result (string * list byte) :=
  match s with
  | open_file name _ => Ok (name, data)
  | fountain_decoder_stream outfile chunk_size =>
      Ok (outfile, fountain_write E chunk_size data)
  | reed_solomon_stream f ecc _ => write_all E f (rs_write E ecc data)
  | fountain_encoder_stream _ _ => Raise (Failure "UnsupportedOperation")
  end.

Definition store_data (name : string) (contents : list byte) : py unit := fun w =>
  (mkWorld (<[name := contents]> (data_files w)) (image_files w) (tempdirs w)
           (next_tempdir w), Ok tt).

(** ** Bits, bytes and groups *)

(** The bits of a byte, most significant first. *)
Definition bits_of_byte (b : byte) : list bool :=
  let '(b0, (b1, (b2, (b3, (b4, (b5, (b6, b7))))))) := Byte.to_bits b in
  [b7; b6; b5; b4; b3; b2; b1; b0].

Definition byte_of_bits (l : list bool) : byte :=
  match l with
  | [b7; b6; b5; b4; b3; b2; b1; b0] =>
      Byte.of_bits (b0, (b1, (b2, (b3, (b4, (b5, (b6, b7)))))))
  | _ => x00
  end.

Definition bitstream (data : list byte) : list bool := data ≫= bits_of_byte.

(** The integer a run of bits spells, most significant first, and back. *)
Definition bits_to_Z (l : list bool) : Z :=
  foldl (fun acc (b : bool) => 2 * acc + Z.b2z b) 0 l.

Fixpoint Z_to_bits (width : nat) (z : Z) : list bool :=
  match width with
  | O => []
  | S width' => Z_to_bits width' (z / 2) ++ [Z.odd z]
  end.

(** Bits packed into bytes, eight at a time; a last partial byte is filled
    with zero bits. *)
Definition pack_bytes (bits : list bool) : list byte :=
  (fun k => byte_of_bits (take 8 (drop (8 * k) bits ++ replicate 8 false)))
    <$> seq 0 ((length bits + 7) / 8).

(** Modelled from the spec: [bit_file] of [cimbar.util.bit_file] in read
    mode, which is not among the sources.  "Reading yields a lazy, finite
    sequence of BITS_PER_OP-wide integers (MSB-first within a byte); the
    final group is zero-padded if the underlying stream ends mid-group",
    and "excess capacity is filled with padding": over the bytes [data] of
    its stream the [k]-th call of [read()] gives the [k]-th group of their
    bits, with zero bits where they have ended.  [read_size] is how many
    bytes it asks of its stream at a time and does not change the groups. *)
Definition bit_file_read (data : list byte) (bits_per_op : nat)
    (read_size : Z) (k : nat) : Z :=
  bits_to_Z (take bits_per_op (drop (k * bits_per_op) (bitstream data)
                               ++ replicate bits_per_op false)).

(** Modelled from the spec: [interleave(cells, B, P)] of
    [cimbar.util.interleave], which is not among the sources.  "Let N =
    |cells|; within partition p of size S = N/P, the output order is the
    concatenation for stripe s in [0,B): positions p·S + s, p·S + s + B,
    p·S + s + 2B, ... while < (p+1)·S."  [interleave_order] lists the cell
    indices in that order. *)
Definition interleave_order (N B P : nat) : list nat :=
  let S := (N / P)%nat in
  p ← seq 0 P;
  s ← seq 0 B;
  (fun j => (p * S + s + j * B)%nat) <$> seq 0 ((S - s + (B - 1)) / B)%nat.

(** Modelled from the spec: [interleave(cells, B, P)] itself, the cells at
    the indices of [interleave_order]. *)
Definition interleave {A : Type} (cells : list A) (B P : nat) : list A :=
  omap (fun i => cells !! i) (interleave_order (length cells) B P).

(** Modelled from the spec: [interleave_reverse(cells, B, P)] of
    [cimbar.util.interleave], which is not among the sources.  It
    "produces a lookup cell_index -> stream_index and reports block_size =
    N / (B · P)". *)
Definition interleave_reverse {A : Type} (cells : list A) (B P : nat)
    : gmap nat nat * nat :=
  (list_to_map (imap (fun k i => (i, k)) (interleave_order (length cells) B P)),
   (length cells / (B * P))%nat).

(** Modelled from the spec: [interleaved_writer] of
    [cimbar.util.interleave], which is not among the sources.  It "accepts
    (bits, block_index) pairs in any order"; "it buffers BITS_PER_OP-bit
    groups per block; when a block fills to its declared byte length it
    flushes those bytes in order.  Blocks MUST flush in ascending
    block_index".  The state is the buffer of each block; closing the writer
    gives the bytes of the blocks in ascending order. *)
Definition iw_write (iw : gmap nat (list Z)) (bits : Z) (block : nat)
    : gmap nat (list Z) :=
  <[block := default [] (iw !! block) ++ [bits]]> iw.

(** Modelled from the spec: leaving the [with] block of an
    [interleaved_writer], which flushes every block, "in ascending
    block_index" and with "a contiguous run of bytes" for each block. *)
Definition iw_close (iw : gmap nat (list Z)) (bits_per_op : nat) : list byte :=
  block ← merge_sort Nat.le (elements (dom iw));
  pack_bytes (default [] (iw !! block) ≫= Z_to_bits bits_per_op).

(** ** [decode] *)

(** [sorted(decoding.items())]: pairs in ascending order, by index first. *)
Definition items_le (a b : nat * Z) : Prop :=
  (a.1 < b.1)%nat ∨ (a.1 = b.1 ∧ a.2 <= b.2).

#[global] Instance items_le_dec a b : Decision (items_le a b).
Proof. unfold items_le. apply _. Defined.

(** The dict comprehension [{i: bits for i, bits in ...}]: a later pair
    replaces an earlier one with the same index. *)
Definition dict_of (yielded : list (nat * Z)) : gmap nat Z :=
  foldl (fun d '(i, bits) => <[i := bits]> d) ∅ yielded.

(** The [for i, bits in sorted(decoding.items())] loop: the writer after
    the writes that happened, and whether the loop raised. *)
Fixpoint decode_write (interleave_lookup : gmap nat nat) (block_size : nat)
    (items : list (nat * Z)) (iw : gmap nat (list Z))
    : gmap nat (list Z) * option PyError :=
  match items with
  | [] => (iw, None)
  | (i, bits) :: items' =>
      match interleave_lookup !! i with
      | None => (iw, Some (KeyError i))
      | Some k =>
          if (block_size =? 0)%nat then (iw, Some (Failure "ZeroDivisionError"))
          else
            let block := (k / block_size)%nat in
            decode_write interleave_lookup block_size items' (iw_write iw bits block)
      end
  end.

Definition decode (E : Collaborators) (src_image outfile : string)
    (dark : bool) (ecc : Z) (fountain force_preprocess deskew auto_dewarp : bool)
    : py unit :=
  let cells := cell_positions E CELL_SPACING CELL_DIMENSIONS CELLS_OFFSET in
  let '(interleave_lookup, block_size) :=
    interleave_reverse cells (Z.to_nat INTERLEAVE_BLOCKS) (Z.to_nat INTERLEAVE_PARTITIONS) in
  let rss := decode_outstream outfile ecc fountain in
  (* leaving the [with] block closes the writer and the streams, on a
     return as on an exception *)
  let leave (iw : gmap nat (list Z)) : py unit :=
    '(name, contents) ← lift (write_all E rss (iw_close iw (Z.to_nat BITS_PER_OP)));
    store_data name contents in
  fun w =>
    match decode_iter E src_image dark force_preprocess deskew auto_dewarp w with
    | (w', Raise e) => (fst (leave ∅ w'), Raise e)
    | (w', Ok yielded) =>
        let decoding := dict_of yielded in
        let items := merge_sort items_le (map_to_list decoding) in
        match decode_write interleave_lookup block_size items ∅ with
        | (iw, Some e) => (fst (leave iw w'), Raise e)
        | (iw, None) => leave iw w'
        end
    end.

(** ** [encode] *)

Definition _get_image_template (E : Collaborators) (width : Z) (dark : bool) : Image :=
  let color := if dark then (0, 0, 0) else (255, 255, 255) in
  let img := Image_new (width, width) color in
  let suffix := if dark then "dark" else "light" in
  let anchor := bitmap E ("bitmap/anchor-" +:+ suffix +:+ ".png") in
  let anchor_br := bitmap E ("bitmap/anchor-secondary-" +:+ suffix +:+ ".png") in
  let '(aw, ah) := size anchor in
  let img := paste img anchor (0, 0) in
  let img := paste img anchor (0, width - ah) in
  let img := paste img anchor (width - aw, 0) in
  let img := paste img anchor_br (width - aw, width - ah) in
  let horizontal_guide := bitmap E ("bitmap/guide-horizontal-" +:+ suffix +:+ ".png") in
  let '(gw, _) := size horizontal_guide in
  let img := paste img horizontal_guide (width / 2 - gw / 2, 2) in
  let img := paste img horizontal_guide (width / 2 - gw / 2, width - 4) in
  let img := paste img horizontal_guide (width / 2 - gw - gw / 2, width - 4) in
  let img := paste img horizontal_guide (width / 2 + gw - gw / 2, width - 4) in
  let vertical_guide := bitmap E ("bitmap/guide-vertical-" +:+ suffix +:+ ".png") in
  let '(_, gh) := size vertical_guide in
  let img := paste img vertical_guide (2, width / 2 - gw / 2) in
  let img := paste img vertical_guide (width - 4, width / 2 - gw / 2) in
  img.

(** The bytes that [count] reads of [bits_per_op] bits consume. *)
Definition bytes_read (count bits_per_op : nat) : nat :=
  ((count * bits_per_op + 7) / 8)%nat.

(** The triples [(bits, x, y)] the generator yields: one [f.read()] for
    each cell of the interleaved order, over the bytes of [instream] that
    these reads consume. *)
Definition encode_iter (E : Collaborators) (src_data : string) (ecc : Z)
    (fountain : bool) : py (list (Z * Z * Z)) := fun w =>
  let '(rss, read_size) := encode_instream src_data ecc fountain in
  match open_reader E w rss with
  | Raise e => (w, Raise e)
  | Ok instream =>
      let cells := cell_positions E CELL_SPACING CELL_DIMENSIONS CELLS_OFFSET in
      let order :=
        interleave cells (Z.to_nat INTERLEAVE_BLOCKS) (Z.to_nat INTERLEAVE_PARTITIONS) in
      let f := instream (bytes_read (length order) (Z.to_nat BITS_PER_OP)) in
      (w, Ok (imap (fun k '(x, y) =>
                      let bits := bit_file_read f (Z.to_nat BITS_PER_OP) read_size k in
                      (bits, x, y))
                   order))
  end.

(** The [for bits, x, y in encode_iter(...)] loop of [encode]. *)
Definition encode_paste (ct : CimbEncoder) (img : Image)
    (yielded : list (Z * Z * Z)) : Image :=
  foldl (fun img '(bits, x, y) =>
           let encoded := ct_encode ct bits in
           paste img encoded (x, y))
        img yielded.

Definition encode (E : Collaborators) (src_data dst_image : string)
    (dark : bool) (ecc : Z) (fountain : bool) : py unit :=
  let img := _get_image_template E TOTAL_SIZE dark in
  let ct := new_CimbEncoder E dark BITS_PER_SYMBOL BITS_PER_COLOR in
  yielded ← encode_iter E src_data ecc fountain;
  let img := encode_paste ct img yielded in
  Image_save img (user_path dst_image).

(** ** Vocabulary for the statements *)

(** The box [_decode_cell] crops for the symbol classifier at the offset
    [(dx, dy)], and the box it crops for the colour classifier there. *)
Definition symbol_box (x y : Z) (drift : Drift) (p : Z * Z) : Z * Z * Z * Z :=
  let testX := x + drift_x drift + p.1 in
  let testY := y + drift_y drift + p.2 in
  (testX, testY, testX + CELL_SIZE, testY + CELL_SIZE).

Definition color_box (x y : Z) (drift : Drift) (p : Z * Z) : Z * Z * Z * Z :=
  let testX := x + drift_x drift + p.1 in
  let testY := y + drift_y drift + p.2 in
  (testX + 1, testY + 1, testX + CELL_SIZE - 2, testY + CELL_SIZE - 2).

(** What the symbol classifier answers for the patch at an offset. *)
Definition symbol_bits (ct : CimbDecoder) (img : Image) (x y : Z) (drift : Drift)
    (p : Z * Z) : Z :=
  (decode_symbol ct (crop img (symbol_box x y drift p))).1.

Definition symbol_distance (ct : CimbDecoder) (img : Image) (x y : Z) (drift : Drift)
    (p : Z * Z) : Z :=
  (decode_symbol ct (crop img (symbol_box x y drift p))).2.

(** What the colour classifier answers for the patch at an offset. *)
Definition color_result (ct : CimbDecoder) (color_img : Image) (x y : Z)
    (drift : Drift) (p : Z * Z) : Z :=
  decode_color ct (crop color_img (color_box x y drift p)).

(** The chunk size a stream's fountain stage was built with. *)
Fixpoint fountain_chunk_size_of (s : Stream) : option Z :=
  match s with
  | open_file _ _ => None
  | fountain_encoder_stream _ chunk_size => Some chunk_size
  | fountain_decoder_stream _ chunk_size => Some chunk_size
  | reed_solomon_stream f _ _ => fountain_chunk_size_of f
  end.

(** The pairs the loop of [_decode_cell] tries are a prefix [tried] of
    [drift.pairs] that ends with the first pair closer than 8, or all of
    them when there is none; [rest] is what the loop never reaches. *)
Definition stops (dist : Z * Z -> Z) (tried rest : list (Z * Z)) : Prop :=
  (rest = [] ∧ Forall (fun q => 8 <= dist q) tried) ∨
  (∃ init p, tried = init ++ [p] ∧ Forall (fun q => 8 <= dist q) init ∧ dist p < 8).

(** What the loop leaves in its three locals when the least distance is
    [m]: the last of the tried pairs at that distance, if there is one, and
    otherwise what was there before. *)
Definition winner (dist sbits : Z * Z -> Z) (tried : list (Z * Z)) (m : Z)
    (before after : option (Z * Z * Z)) : Prop :=
  (∃ pre w post, tried = pre ++ w :: post ∧ dist w = m ∧
     Forall (fun q => m <= dist q) pre ∧ Forall (fun q => m < dist q) post ∧
     after = Some (sbits w, w.1, w.2)) ∨
  (Forall (fun q => m < dist q) tried ∧ after = before).

(** ** Test doubles

    Small collaborators on which the functions above can be run. *)

(** A page of one colour, and a page whose pixel at [(i, j)] is
    [(i, j, 0)], so that a patch shows where it was cut. *)
Definition blank_page : Image := Image_new (TOTAL_SIZE, TOTAL_SIZE) black.
Definition coordinate_page : Image :=
  mkImage (TOTAL_SIZE, TOTAL_SIZE) (fun i j => (i, j, 0)).

(** A classifier that answers the same for every patch. *)
Definition constant_decoder (bits distance color : Z) : CimbDecoder :=
  mkCimbDecoder (fun _ => (bits, distance)) (fun _ => color).

(** A classifier whose colour answer is a measurement of the patch it is
    handed. *)
Definition probe_decoder (measure : Image -> Z) : CimbDecoder :=
  mkCimbDecoder (fun _ => (0, 0)) measure.

(** A classifier that reads the first pixel of its patch: red and green are
    the symbol bits and the distance, red is the colour answer. *)
Definition pixel_decoder : CimbDecoder :=
  mkCimbDecoder (fun im => let '(r, g, _) := getpixel im 0 0 in (r, g))
                (fun im => let '(r, _, _) := getpixel im 0 0 in r).

Definition red_at (i j : Z) (im : Image) : Z := let '(r, _, _) := getpixel im i j in r.
Definition green_at (i j : Z) (im : Image) : Z := let '(_, g, _) := getpixel im i j in g.

(** No drift, and only the nominal position to try. *)
Definition no_drift : Drift := mkDrift 0 0 [(0, 0)].

(** A drift hint with four offsets to try. *)
Definition four_pairs : Drift := mkDrift 0 0 [(0, 0); (1, -1); (-1, -5); (0, -9)].

(** Collaborators assembled from a deskewer, the two cell codecs, a list of
    cell positions and a decode order; the sharpening filter and the
    Reed-Solomon and fountain stages pass what they are given. *)
Definition test_collaborators
    (deskew : Image -> bool -> bool -> result ((Z * Z) * Image))
    (dec : CimbDecoder) (enc : CimbEncoder)
    (cells : list (Z * Z)) (order : DecodeOrder) : Collaborators :=
  mkCollaborators deskew (fun _ _ _ => dec) (fun _ _ _ => enc) (fun im => im)
    (fun _ _ _ => cells) (fun _ _ => order) (fun _ => Image_new (8, 8) white)
    (fun _ reader => reader) (fun _ data => data)
    (fun _ data n => take n data) (fun _ data => data).

(** A world with one image file. *)
Definition one_page_world (name : string) (page : Image) : World :=
  mkWorld ∅ {[name := page]} ∅ 0.

(** A deskewer that finds no anchors, and one that reports a page of the
    canonical size and stores the image it was given. *)
Definition deskewer_no_anchor : Image -> bool -> bool -> result ((Z * Z) * Image) :=
  fun _ _ _ => Raise (Failure "AnchorNotFound").
Definition deskewer_canonical : Image -> bool -> bool -> result ((Z * Z) * Image) :=
  fun im _ _ => Ok ((TOTAL_SIZE, TOTAL_SIZE), im).

(** A decode order of the single cell at (8, 8). *)
Definition one_cell_order : DecodeOrder :=
  Yield 0 (8, 8) no_drift (fun _ _ _ => Exhausted).

(** A world with one data file. *)
Definition one_file_world (name : string) (payload : list byte) : World :=
  mkWorld {[name := payload]} ∅ ∅ 0.

(** ** Vocabulary for the interleaved order

    When the cells divide evenly into [P] partitions of [B] stripes of
    [bs] cells, the stream index [k] and the cell index it is rendered at
    determine each other: [stream_to_cell] and [cell_to_stream]. *)
Definition stream_to_cell (B bs k : nat) : nat :=
  let S := (B * bs)%nat in
  let r := (k mod S)%nat in
  (k / S * S + r / bs + r mod bs * B)%nat.

Definition cell_to_stream (B bs i : nat) : nat :=
  let S := (B * bs)%nat in
  let r := (i mod S)%nat in
  ((i / S * B + r mod B) * bs + r / B)%nat.

(** ** Vocabulary for the round trip *)

(** The tile of a cell at [(x, y)] covers the pixel [(u, v)]. *)
Definition covers (xy : Z * Z) (u v : Z) : Prop :=
  xy.1 <= u < xy.1 + CELL_SIZE ∧ xy.2 <= v < xy.2 + CELL_SIZE.

(** Tiles of different cells share no pixel, and every tile lies on the
    page. *)
Definition cells_apart (cells : list (Z * Z)) : Prop :=
  ∀ p q, p ∈ cells → q ∈ cells → p ≠ q →
    CELL_SIZE <= Z.abs (p.1 - q.1) ∨ CELL_SIZE <= Z.abs (p.2 - q.2).

Definition cells_inside (cells : list (Z * Z)) : Prop :=
  ∀ p, p ∈ cells →
    0 <= p.1 ∧ p.1 + CELL_SIZE <= TOTAL_SIZE ∧ 0 <= p.2 ∧ p.2 + CELL_SIZE <= TOTAL_SIZE.

(** The encoder draws tiles of [CELL_SIZE] x [CELL_SIZE] pixels. *)
Definition draws_tiles (enc : CimbEncoder) : Prop :=
  ∀ bits, size (ct_encode enc bits) = (CELL_SIZE, CELL_SIZE).

(** The classifiers read an unspoilt tile: for the full patch of the tile
    of [bits] the symbol distance is 0, and the symbol answer for it plus
    the colour answer for the patch cut at [(1, 1)] with 5 x 5 pixels is
    [bits]. *)
Definition reads_clean_tiles (enc : CimbEncoder) (dec : CimbDecoder) : Prop :=
  ∀ bits symbol_patch color_patch,
    0 <= bits < 2 ^ BITS_PER_OP →
    size symbol_patch = (CELL_SIZE, CELL_SIZE) →
    (∀ a b, 0 <= a < CELL_SIZE → 0 <= b < CELL_SIZE →
       getpixel symbol_patch a b = getpixel (ct_encode enc bits) a b) →
    size color_patch = (CELL_SIZE - 3, CELL_SIZE - 3) →
    (∀ a b, 0 <= a < CELL_SIZE - 3 → 0 <= b < CELL_SIZE - 3 →
       getpixel color_patch a b = getpixel (ct_encode enc bits) (a + 1) (b + 1)) →
    (decode_symbol dec symbol_patch).2 = 0 ∧
    (decode_symbol dec symbol_patch).1 + decode_color dec color_patch = bits.

(** What a decode order yields when every cell it yields is found at its
    nominal position at distance 0, that is when every update it receives
    is [(0, 0, 0)]. *)
Fixpoint clean_run (order : DecodeOrder) : list (nat * (Z * Z) * Drift) :=
  match order with
  | Exhausted => []
  | Yield i xy drift update => (i, xy, drift) :: clean_run (update 0 0 0)
  end.

(** On such a run the order visits every cell, at its position, with no
    drift, and tries the nominal position first. *)
Definition visits_cleanly (order : DecodeOrder) (cells : list (Z * Z)) : Prop :=
  Forall (fun '(i, xy, drift) =>
            cells !! i = Some xy ∧ drift_x drift = 0 ∧ drift_y drift = 0 ∧
            head (pairs drift) = Some (0, 0))
         (clean_run order) ∧
  ∀ i, (i < length cells)%nat → i ∈ (clean_run order).*1.*1.

(** What [encode_iter] yields when the [k]-th [read()] gives [g k]. *)
Definition yielded_of (cells : list (Z * Z)) (B P : nat) (g : nat -> Z)
    : list (Z * Z * Z) :=
  imap (fun k '(x, y) => (g k, x, y)) (interleave cells B P).

(** The bit at a position of a bit stream and the byte at a position of a
    byte stream, zero past the end. *)
Definition bit_at (bits : list bool) (t : nat) : bool := default false (bits !! t).
Definition byte_at (data : list byte) (t : nat) : byte := default x00 (data !! t).

(** The [k]-th group of [bits_per_op] bits of a byte stream, zero past its
    end. *)
Definition group_of (data : list byte) (bits_per_op k : nat) : Z :=
  bits_to_Z (bit_at (bitstream data) <$> seq (k * bits_per_op) bits_per_op).

(** A byte stream cut or filled with zero bytes to [n] bytes. *)
Definition fit_to (n : nat) (data : list byte) : list byte :=
  take n data ++ replicate (n - length data) x00.

(** The writes of [decode] when cell [i] decodes to the group it was
    rendered from: the group and the block of every cell, in the order of
    the cells. *)
Definition all_writes (B P bs : nat) (g : nat -> Z) : list (Z * nat) :=
  (fun i => (g (cell_to_stream B bs i), (cell_to_stream B bs i / bs)%nat))
    <$> seq 0 (P * B * bs).

(** ** A page to run the round trip on *)

(** The cells of a [dim] x [dim] grid that [keep] retains, row by row, at
    the spacing and offset of the page. *)
Definition grid_cells (dim : nat) (keep : nat -> nat -> bool) : list (Z * Z) :=
  r ← seq 0 dim;
  c ← seq 0 dim;
  if keep r c
  then [(CELLS_OFFSET + Z.of_nat c * CELL_SPACING, CELLS_OFFSET + Z.of_nat r * CELL_SPACING)]
  else [].

(** Not in one of the four corner squares of [marker] x [marker] cells. *)
Definition outside_corners (dim marker r c : nat) : bool :=
  negb (((r <? marker) || (dim - marker <=? r))%nat
        && ((c <? marker) || (dim - marker <=? c))%nat).

(** The 112 x 112 grid without the 6 x 6 cells at each corner, where the
    anchors are: 12400 cells, 9300 bytes. *)
Definition page_cells : list (Z * Z) := grid_cells 112 (outside_corners 112 6).

(** An encoder whose tile for [bits] is a square of the one colour
    [(bits, bits, bits)], and the classifier that reads it back: the low
    four bits are the symbol, the rest is the colour answer, already in
    place. *)
Definition solid_encoder : CimbEncoder :=
  mkCimbEncoder (fun bits => Image_new (CELL_SIZE, CELL_SIZE) (bits, bits, bits)).

Definition solid_decoder : CimbDecoder :=
  mkCimbDecoder (fun im => (red_at 0 0 im mod 16, 0))
                (fun im => red_at 0 0 im / 16 * 16).

(** A decode order that visits the cells as they are listed, without
    drift, whatever the updates. *)
Fixpoint raster_order (i : nat) (cells : list (Z * Z)) : DecodeOrder :=
  match cells with
  | [] => Exhausted
  | xy :: rest => Yield i xy no_drift (fun _ _ _ => raster_order (S i) rest)
  end.

Definition page_collaborators : Collaborators :=
  test_collaborators deskewer_canonical solid_decoder solid_encoder
                     page_cells (raster_order 0 page_cells).

(** The sixteen bytes 0x00 .. 0x0F. *)
Definition sixteen_bytes : list byte :=
  [x00; x01; x02; x03; x04; x05; x06; x07; x08; x09; x0a; x0b; x0c; x0d; x0e; x0f].

(** * The cluster labels of [cimbar/util/kmeans.py]

    The two functions of the module that stand on their own.  Points are
    sequences of numbers; they are taken with integer coordinates, on which
    Python's arithmetic is exact. *)

Module kmeans.

(** [dist(x, y)]: [sum((xi - yi) ** 2 for xi, yi in zip(x, y))].  [zip]
    stops with the shorter of the two points and [sum] adds from the left,
    starting at 0. *)
Definition dist (x y : list Z) : Z :=
  foldl Z.add 0 ((fun '(xi, yi) => (xi - yi) ^ 2) <$> zip x y).

(** [min(distances)]: the least item, [ValueError] for an empty list. *)
Definition py_min (l : list Z) : result Z :=
  match l with
  | [] => Raise (Failure "ValueError")
  | d :: l' => Ok (foldl (fun least a => if a <? least then a else least) d l')
  end.

(** [distances.index(v)]: the first position that holds [v], [ValueError]
    when there is none. *)
Fixpoint index (v : Z) (l : list Z) : result nat :=
  match l with
  | [] => Raise (Failure "ValueError")
  | d :: l' => if d =? v then Ok O else S <$> index v l'
  end.

(** [recompute_cluster_labels(data, centers)]: the [for point in data]
    loop, which appends one label for each point and ends at the first
    point for which a call raises. *)
Fixpoint recompute_cluster_labels (data centers : list (list Z)) : result (list nat) :=
  match data with
  | [] => Ok []
  | point :: data' =>
      let distances := (fun center => dist point center) <$> centers in
      least ← py_min distances;
      label ← index least distances;
      labels ← recompute_cluster_labels data' centers;
      Ok (label :: labels)
  end.

End kmeans.

(** ** Vocabulary for the further properties *)

(** The sum, over the points, of the squared distance of a point to the
    centre its label names. *)
Definition inertia (data centers : list (list Z)) (labels : list nat) : Z :=
  foldr Z.add 0
    (zip_with (fun point label => default 0 (kmeans.dist point <$> centers !! label))
              data labels).

(** The items the writing loop of [decode] goes through for what
    [decode_iter] yielded: [sorted(decoding.items())]. *)
Definition decode_items (yielded : list (nat * Z)) : list (nat * Z) :=
  merge_sort items_le (map_to_list (dict_of yielded)).

(** ** Test doubles for the further properties *)

(** Three colours and two centres. *)
Definition three_points : list (list Z) := [[0; 0; 0]; [250; 10; 10]; [128; 128; 128]].
Definition two_centers : list (list Z) := [[255; 0; 0]; [0; 0; 0]].

(** A drift hint whose second and third offsets are equally far on the
    page that shows coordinates (the distance there is the row of the
    patch), and one whose second offset is close enough to end the search
    although the third is closer. *)
Definition tied_pairs : Drift := mkDrift 0 0 [(0, 0); (1, -1); (-1, -1)].
Definition early_pairs : Drift := mkDrift 0 0 [(0, 0); (0, -3); (0, -9)].

(** A world with one image file and one data file that is already there. *)
Definition page_and_old_output (image : string) (page : Image) (outfile : string)
    (old : list byte) : World :=
  mkWorld {[outfile := old]} {[image := page]} ∅ 0.

(** A decode order of the single cell at (8, 8) all of whose offsets are
    out of reach on a page that answers with a distance above 1000. *)
Definition far_decoder : CimbDecoder := constant_decoder 0 2000 0.

(** * Properties *)

(** ** The drift search of [_decode_cell] *)

Section decode_cell.
Context (ct : CimbDecoder) (img color_img : Image) (x y : Z) (drift : Drift).

Local Abbreviation dist := (symbol_distance ct img x y drift).
Local Abbreviation sbits := (symbol_bits ct img x y drift).

Lemma search_step dx dy todo best_distance best :
  _decode_cell_search ct img x y drift ((dx, dy) :: todo) best_distance best =
  let best_distance' := Z.min (dist (dx, dy)) best_distance in
  let best' := if dist (dx, dy) =? best_distance'
               then Some (sbits (dx, dy), dx, dy) else best in
  if dist (dx, dy) <? 8 then (best_distance', best')
  else _decode_cell_search ct img x y drift todo best_distance' best'.
Proof.
  unfold symbol_distance, symbol_bits, symbol_box. cbn [_decode_cell_search fst snd].
  destruct (decode_symbol ct _) as [bits min_distance]. reflexivity.
Qed.

Lemma foldr_min_acc (d b : Z) (l : list Z) :
  foldr Z.min (Z.min d b) l = Z.min d (foldr Z.min b l).
Proof. induction l as [|a l IH]; cbn; [done|]. rewrite IH. lia. Qed.

Lemma foldr_min_cases (b : Z) (l : list Z) :
  foldr Z.min b l = b ∨ foldr Z.min b l ∈ l.
Proof.
  induction l as [|a l IH]; cbn; [by left|].
  destruct (Z.min_spec a (foldr Z.min b l)) as [[_ ->]|[_ ->]].
  - right. left.
  - destruct IH as [->|H]; [by left|right; by right].
Qed.

Lemma foldr_min_le (b : Z) (l : list Z) :
  foldr Z.min b l <= b ∧ Forall (fun a => foldr Z.min b l <= a) l.
Proof.
  induction l as [|a l [IH1 IH2]]; cbn; [split; [lia|constructor]|].
  split; [lia|]. constructor; [lia|].
  eapply Forall_impl; [exact IH2|]. cbn. intros; lia.
Qed.

Lemma search_spec todo best_distance best :
  ∃ tried rest,
    todo = tried ++ rest ∧ stops dist tried rest ∧
    let m := foldr Z.min best_distance (dist <$> tried) in
    (_decode_cell_search ct img x y drift todo best_distance best).1 = m ∧
    winner dist sbits tried m best (_decode_cell_search ct img x y drift todo best_distance best).2.
Proof.
  revert best_distance best.
  induction todo as [|[dx dy] todo IH]; intros bd best.
  { exists [], []. split; [done|]. split; [left; by split|].
    cbn. split; [done|]. right. by split. }
  rewrite search_step. cbn zeta.
  destruct (Z.ltb_spec (dist (dx, dy)) 8) as [Hlt|Hge].
  - exists [(dx, dy)], todo. split; [done|]. split.
    { right. exists [], (dx, dy). by repeat split. }
    cbn. split; [done|].
    destruct (Z.eqb_spec (dist (dx, dy)) (Z.min (dist (dx, dy)) bd)) as [He|Hne].
    + left. exists [], (dx, dy), []. repeat split; [lia|constructor..].
    + right. split; [|done]. repeat constructor. lia.
  - destruct (IH (Z.min (dist (dx, dy)) bd)
                (if dist (dx, dy) =? Z.min (dist (dx, dy)) bd
                 then Some (sbits (dx, dy), dx, dy) else best))
      as (tried & rest & -> & Hstop & Hm & Hw).
    exists ((dx, dy) :: tried), rest. split; [done|]. split.
    { destruct Hstop as [[-> Hall]|(init & p & -> & Hall & Hp)].
      - left. split; [done|]. by constructor.
      - right. exists ((dx, dy) :: init), p. repeat split; [by constructor|done]. }
    cbn zeta in *. cbn [fmap list_fmap foldr]. rewrite foldr_min_acc in Hm, Hw.
    split; [done|].
    set (m := Z.min (dist (dx, dy)) (foldr Z.min bd (dist <$> tried))) in *.
    destruct Hw as [(pre & w & post & -> & Hd & Hpre & Hpost & ->)|[Hall ->]].
    + left. exists ((dx, dy) :: pre), w, post. repeat split; try done.
      constructor; [lia|done].
    + destruct (Z.eqb_spec (dist (dx, dy)) (Z.min (dist (dx, dy)) bd)) as [He|Hne].
      * left. exists [], (dx, dy), tried. repeat split; try done.
        destruct (foldr_min_cases bd (dist <$> tried)) as [Hb|Hin]; [lia|].
        apply list_elem_of_fmap in Hin as (q & Hq & Hin).
        rewrite Forall_forall in Hall. specialize (Hall q Hin). lia.
      * right. split; [|done]. constructor; [|done].
        destruct (foldr_min_le bd (dist <$> tried)) as [Hb _]. lia.
Qed.

End decode_cell.

Section decode_cell_results.
Context (ct : CimbDecoder) (img color_img : Image) (x y : Z) (drift : Drift).

Local Abbreviation dist := (symbol_distance ct img x y drift).
Local Abbreviation sbits := (symbol_bits ct img x y drift).
Local Abbreviation color := (color_result ct color_img x y drift).

(** The two ways [_decode_cell] ends. *)
Lemma decode_cell_cases :
  ∃ tried rest,
    pairs drift = tried ++ rest ∧ stops dist tried rest ∧
    ((∃ w, w ∈ tried ∧ dist w <= 1000 ∧ Forall (fun q => dist w <= dist q) tried ∧
        _decode_cell ct img color_img x y drift =
          Ok (sbits w + color w, w.1, w.2, dist w)) ∨
     (tried = pairs drift ∧ Forall (fun q => 1000 < dist q) (pairs drift) ∧
        _decode_cell ct img color_img x y drift = Raise (UnboundLocalError "best_dx"))).
Proof.
  destruct (search_spec ct img x y drift (pairs drift) 1000 None)
    as (tried & rest & Hsplit & Hstop & Hm & Hw).
  exists tried, rest. split; [done|]. split; [done|].
  unfold _decode_cell.
  destruct (_decode_cell_search ct img x y drift (pairs drift) 1000 None)
    as [best_distance best].
  cbn [fst snd] in Hm, Hw. cbn zeta in Hw.
  destruct (foldr_min_le 1000 (dist <$> tried)) as [Hle Hall].
  rewrite Forall_fmap in Hall.
  destruct Hw as [(pre & w & post & Htried & Hd & _ & _ & ->)|[Hgt ->]].
  - left. exists w. split; [rewrite Htried; set_solver|].
    split; [lia|]. split.
    { eapply Forall_impl; [exact Hall|]. cbn. intros; lia. }
    destruct w as [dx dy]. cbn [fst snd].
    unfold symbol_bits, symbol_distance, color_result, color_box, symbol_box in *.
    cbn [fst snd] in *. by rewrite Hm, Hd.
  - right.
    assert (foldr Z.min 1000 (dist <$> tried) = 1000) as Hthousand.
    { destruct (foldr_min_cases 1000 (dist <$> tried)) as [?|Hin]; [done|].
      apply list_elem_of_fmap in Hin as (q & Hq & Hin).
      rewrite Forall_forall in Hgt. specialize (Hgt q Hin). lia. }
    rewrite Hthousand in Hgt.
    assert (rest = []) as ->.
    { destruct Hstop as [[-> _]|(init & p & -> & _ & Hp)]; [done|].
      rewrite Forall_app, Forall_singleton in Hgt. lia. }
    rewrite app_nil_r in Hsplit. subst tried. by repeat split.
Qed.

End decode_cell_results.

(** C4.  [_decode_cell] tries the offsets of [drift.pairs] in order, on the
    [CELL_SIZE] x [CELL_SIZE] patch of [img] at
    [(x + drift.x + dx, y + drift.y + dy)]; it stops with the first pair whose
    distance is below 8; it returns the least distance among the pairs it
    tried together with the offset and the symbol bits of a pair at that
    distance (with the colour answer at that offset added to the bits).
    Stated for a cell on which the search finds a pair (one of
    [drift.pairs] is at distance 1000 or less). *)
Theorem decode_cell_drift_search (ct : CimbDecoder) (img color_img : Image)
    (x y : Z) (drift : Drift) :
  (∃ p, p ∈ pairs drift ∧ symbol_distance ct img x y drift p <= 1000) →
  (∀ p, symbol_box x y drift p =
          (x + drift_x drift + p.1, y + drift_y drift + p.2,
           x + drift_x drift + p.1 + CELL_SIZE, y + drift_y drift + p.2 + CELL_SIZE) ∧
        size (crop img (symbol_box x y drift p)) = (CELL_SIZE, CELL_SIZE)) ∧
  ∃ tried rest w,
    pairs drift = tried ++ rest ∧
    stops (symbol_distance ct img x y drift) tried rest ∧
    w ∈ tried ∧
    Forall (fun q => symbol_distance ct img x y drift w <= symbol_distance ct img x y drift q)
           tried ∧
    _decode_cell ct img color_img x y drift =
      Ok (symbol_bits ct img x y drift w + color_result ct color_img x y drift w,
          w.1, w.2, symbol_distance ct img x y drift w).
Proof.
  intros (p & Hp & Hd). split.
  { intros q. split; [done|]. unfold symbol_box, crop. cbn. f_equal; lia. }
  destruct (decode_cell_cases ct img color_img x y drift)
    as (tried & rest & Hsplit & Hstop & [(w & Hw & _ & Hmin & Hret)|(_ & Hall & _)]).
  - by exists tried, rest, w.
  - rewrite Forall_forall in Hall. specialize (Hall p Hp). lia.
Qed.

Lemma decode_cell_drift_search_witness :
  ∃ tried rest w,
    pairs four_pairs = tried ++ rest ∧
    stops (symbol_distance pixel_decoder coordinate_page 8 10 four_pairs) tried rest ∧
    w ∈ tried ∧
    Forall (fun q => symbol_distance pixel_decoder coordinate_page 8 10 four_pairs w
                     <= symbol_distance pixel_decoder coordinate_page 8 10 four_pairs q)
           tried ∧
    _decode_cell pixel_decoder coordinate_page coordinate_page 8 10 four_pairs =
      Ok (symbol_bits pixel_decoder coordinate_page 8 10 four_pairs w
          + color_result pixel_decoder coordinate_page 8 10 four_pairs w,
          w.1, w.2, symbol_distance pixel_decoder coordinate_page 8 10 four_pairs w).
Proof.
  apply (decode_cell_drift_search pixel_decoder coordinate_page coordinate_page 8 10 four_pairs).
  exists (0, 0). split; [left|]. vm_compute. discriminate.
Defined.

(** On the page that shows coordinates the distances at the four offsets
    are 10, 9, 5 and 1: the search stops at the third, which wins. *)
Example decode_cell_four_pairs :
  _decode_cell pixel_decoder coordinate_page coordinate_page 8 10 four_pairs
  = Ok (7 + 8, -1, -5, 5).
Proof. reflexivity. Qed.

(** C10.  [_decode_cell] returns only when some pair of [drift.pairs] is at
    a symbol distance of 1000 or less.  When [drift.pairs] is empty, or every
    pair is farther than 1000, [best_bits], [best_dx] and [best_dy] are never
    assigned and the function raises [UnboundLocalError] at its first read
    of [best_dx]. *)
Theorem decode_cell_unbound_local (ct : CimbDecoder) (img color_img : Image)
    (x y : Z) (drift : Drift) :
  (∀ r, _decode_cell ct img color_img x y drift = Ok r →
        ∃ p, p ∈ pairs drift ∧ symbol_distance ct img x y drift p <= 1000) ∧
  (pairs drift = [] ∨ (∀ p, p ∈ pairs drift → 1000 < symbol_distance ct img x y drift p) →
   _decode_cell ct img color_img x y drift = Raise (UnboundLocalError "best_dx")).
Proof.
  destruct (decode_cell_cases ct img color_img x y drift)
    as (tried & rest & Hsplit & Hstop & [(w & Hw & Hd & _ & Hret)|(_ & Hall & Hret)]).
  - split.
    + intros r _. exists w. split; [rewrite Hsplit; set_solver|done].
    + intros [Hnil|Hfar].
      * rewrite Hnil in Hsplit. destruct tried; [set_solver|done].
      * assert (w ∈ pairs drift) as Hin by (rewrite Hsplit; set_solver).
        specialize (Hfar w Hin). lia.
  - split; [|done]. intros r Hr. congruence.
Qed.

(** ** How [_decode_cell] joins the two channels *)

Lemma lor_shiftl_small (c s n : Z) :
  0 <= n → 0 <= s < 2 ^ n → Z.lor (Z.shiftl c n) s = Z.shiftl c n + s.
Proof.
  intros Hn Hs.
  assert (Z.land (Z.shiftl c n) s = 0) as Hdisjoint.
  { apply Z.bits_inj'. intros k Hk. rewrite Z.land_spec, Z.bits_0.
    destruct (Z.lt_ge_cases k n) as [Hlt|Hge].
    - by rewrite Z.shiftl_spec_low.
    - assert (Z.testbit s k = false) as ->; [|by rewrite andb_false_r].
      destruct (Z.eq_dec s 0) as [->|Hnz]; [apply Z.bits_0|].
      apply Z.bits_above_log2; [lia|].
      assert (Z.log2 s < n); [|lia]. apply Z.log2_lt_pow2; lia. }
  rewrite <- Z.lxor_lor by done. symmetry. by apply Z.add_nocarry_lxor.
Qed.

(** C2 (as the code has it).  The bits [_decode_cell] returns are the sum
    of the symbol classifier's answer and the colour classifier's answer at
    the winning offset; [_decode_cell] itself shifts nothing.  The sum is
    [(color_id << BITS_PER_SYMBOL) | symbol_id] when the colour classifier's
    answer is [color_id << BITS_PER_SYMBOL] and the symbol classifier's
    answer [symbol_id] lies in [0, 2^BITS_PER_SYMBOL). *)
Theorem decode_cell_adds_channels (ct : CimbDecoder) (img color_img : Image)
    (x y : Z) (drift : Drift) (bits dx dy distance : Z) :
  _decode_cell ct img color_img x y drift = Ok (bits, dx, dy, distance) →
  bits = symbol_bits ct img x y drift (dx, dy)
         + color_result ct color_img x y drift (dx, dy) ∧
  ∀ symbol_id color_id,
    symbol_bits ct img x y drift (dx, dy) = symbol_id →
    color_result ct color_img x y drift (dx, dy) = Z.shiftl color_id BITS_PER_SYMBOL →
    0 <= symbol_id < 2 ^ BITS_PER_SYMBOL →
    bits = Z.lor (Z.shiftl color_id BITS_PER_SYMBOL) symbol_id.
Proof.
  intros Hret.
  assert (bits = symbol_bits ct img x y drift (dx, dy)
                 + color_result ct color_img x y drift (dx, dy)) as Hsum.
  { destruct (decode_cell_cases ct img color_img x y drift)
      as (tried & rest & _ & _ & [(w & _ & _ & _ & Hok)|(_ & _ & Hraise)]);
      [|congruence].
    rewrite Hok in Hret. destruct w as [wx wy]. cbn [fst snd] in Hret. congruence. }
  split; [done|]. intros symbol_id color_id Hs Hc Hrange.
  rewrite Hsum, Hs, Hc, lor_shiftl_small; [lia|done|done].
Qed.

Lemma decode_cell_adds_channels_witness :
  15 = symbol_bits pixel_decoder coordinate_page 8 10 four_pairs (-1, -5)
       + color_result pixel_decoder coordinate_page 8 10 four_pairs (-1, -5).
Proof.
  exact (proj1 (decode_cell_adds_channels pixel_decoder coordinate_page coordinate_page
                  8 10 four_pairs 15 (-1) (-5) 5 eq_refl)).
Defined.

(** C2 (as the claim has it) fails: with a symbol answer of 1 and a colour
    answer of 1 the function returns 2, not [(1 << 4) | 1 = 17]. *)
Lemma decode_cell_does_not_shift :
  _decode_cell (constant_decoder 1 0 1) blank_page blank_page 8 8 no_drift = Ok (2, 0, 0, 0) ∧
  2 ≠ Z.lor (Z.shiftl (color_result (constant_decoder 1 0 1) blank_page 8 8 no_drift (0, 0))
                      BITS_PER_SYMBOL)
            (symbol_bits (constant_decoder 1 0 1) blank_page 8 8 no_drift (0, 0)).
Proof. split; [reflexivity|]. vm_compute. discriminate. Qed.

(** The same with a colour classifier that answers with its bits already
    in place, [1 << 4 = 16]: the function returns 17, and shifting that
    answer once more would give 257. *)
Example decode_cell_shifted_color_answer :
  _decode_cell (constant_decoder 1 0 16) blank_page blank_page 8 8 no_drift = Ok (17, 0, 0, 0) ∧
  Z.lor (Z.shiftl 16 BITS_PER_SYMBOL) 1 = 257.
Proof. split; reflexivity. Qed.

(** ** The colour patch *)

(** The box of the colour patch, for every cell and offset: it starts one
    pixel inside the cell and is [CELL_SIZE - 3] pixels wide and high. *)
Lemma color_box_size (color_img : Image) (x y : Z) (drift : Drift) (p : Z * Z) :
  size (crop color_img (color_box x y drift p)) = (CELL_SIZE - 3, CELL_SIZE - 3).
Proof. unfold color_box, crop. cbn. f_equal; lia. Qed.

(** C3 (what the code does).  The colour classifier is handed a patch of
    5 x 5 pixels, not 6 x 6: for the cell at (8, 8) without drift a
    classifier that measures its patch finds width 5 and height 5, the
    first pixel at (9, 9), the last at (13, 13) and nothing (black) at its
    position (5, 5), where the page has (14, 14, 0).  The cell covers
    columns and rows 8 to 15, so the inset is one pixel at the left and top
    and two pixels at the right and bottom. *)
Theorem color_patch_is_five_by_five :
  _decode_cell (probe_decoder width) coordinate_page coordinate_page 8 8 no_drift
    = Ok (5, 0, 0, 0) ∧
  _decode_cell (probe_decoder height) coordinate_page coordinate_page 8 8 no_drift
    = Ok (5, 0, 0, 0) ∧
  _decode_cell (probe_decoder (red_at 0 0)) coordinate_page coordinate_page 8 8 no_drift
    = Ok (9, 0, 0, 0) ∧
  _decode_cell (probe_decoder (green_at 0 0)) coordinate_page coordinate_page 8 8 no_drift
    = Ok (9, 0, 0, 0) ∧
  _decode_cell (probe_decoder (red_at 4 4)) coordinate_page coordinate_page 8 8 no_drift
    = Ok (13, 0, 0, 0) ∧
  _decode_cell (probe_decoder (green_at 4 4)) coordinate_page coordinate_page 8 8 no_drift
    = Ok (13, 0, 0, 0) ∧
  _decode_cell (probe_decoder (red_at 5 5)) coordinate_page coordinate_page 8 8 no_drift
    = Ok (0, 0, 0, 0) ∧
  (CELL_SIZE - 2, CELL_SIZE - 2) ≠ (5, 5).
Proof. repeat split; try reflexivity. vm_compute. discriminate. Qed.

(** ** [decode_iter]: sharpening and the temporary directory *)

Section decode_iter.
Context (E : Collaborators) (src_image : string) (dark force_preprocess auto_dewarp : bool).

(** With deskew, up to the loop: the directory is created, the warped
    image is stored in it and read back. *)
Lemma decode_iter_open_deskew (w : World) :
  decode_iter_open E src_image dark force_preprocess true auto_dewarp w =
  let d := next_tempdir w in
  let w1 := mkWorld (data_files w) (image_files w) (<[d := ∅]> (tempdirs w)) (S d) in
  match image_files w !! src_image with
  | None => (w1, Raise (Failure "FileNotFoundError"))
  | Some src =>
      match deskewer E src dark auto_dewarp with
      | Raise e => (w1, Raise e)
      | Ok (dims, warped) =>
          (store_image w1 (temp_path d (basename src_image)) warped,
           Ok (Some d,
               force_preprocess || ((dims.1 <? TOTAL_SIZE) || (dims.2 <? TOTAL_SIZE)),
               warped))
      end
  end.
Proof.
  unfold decode_iter_open, detect_and_deskew, TemporaryDirectory, Image_open,
    Image_save, lift, mbind, py_bind, mret, py_ret.
  cbn [lookup_image image_files].
  destruct (image_files w !! src_image) as [src|]; [|done].
  destruct (deskewer E src dark auto_dewarp) as [[dims warped]|e]; [|done].
  cbn [lookup_image store_image tempdirs].
  rewrite lookup_alter_eq, lookup_insert_eq. cbn.
  by rewrite lookup_insert_eq.
Qed.

Lemma decode_iter_deskew (w : World) :
  decode_iter E src_image dark force_preprocess true auto_dewarp w =
  match decode_iter_open E src_image dark force_preprocess true auto_dewarp w with
  | (w1, Raise e) => (w1, Raise e)
  | (w1, Ok (tempdir, should_preprocess, color_img)) =>
      let ct := new_CimbDecoder E dark BITS_PER_SYMBOL BITS_PER_COLOR in
      let img := if should_preprocess then _preprocess_for_decode E color_img else color_img in
      let order := FloodDecodeOrder E (cell_positions E CELL_SPACING CELL_DIMENSIONS CELLS_OFFSET)
                                    CELL_DIMENSIONS in
      match decode_iter_cells ct img color_img order with
      | Raise e => (w1, Raise e)
      | Ok yielded =>
          (match tempdir with
           | Some d => (with_tempdir_pass d w1).1
           | None => w1
           end, Ok yielded)
      end
  end.
Proof.
  unfold decode_iter. unfold mbind at 1. unfold py_bind.
  destruct (decode_iter_open _ _ _ _ _ _ _) as [w1 [[[tempdir sp] color_img]|e]]; [|done].
  unfold decode_iter_images, lift, mbind, py_bind, mret, py_ret. cbn zeta.
  destruct (decode_iter_cells _ _ _ _) as [yielded|e]; [|done].
  by destruct tempdir.
Qed.

(** Whether the directory made by a deskewing [decode_iter] is still
    there when it is left: gone after the last cell, there after any
    exception. *)
Lemma decode_iter_tempdir_fate (w : World) :
  match decode_iter E src_image dark force_preprocess true auto_dewarp w with
  | (w', Ok _) => tempdirs w' !! next_tempdir w = None
  | (w', Raise _) => is_Some (tempdirs w' !! next_tempdir w)
  end.
Proof.
  rewrite decode_iter_deskew, decode_iter_open_deskew. cbn zeta.
  destruct (image_files w !! src_image) as [src|];
    [|cbn; by rewrite lookup_insert_eq].
  destruct (deskewer E src dark auto_dewarp) as [[dims warped]|e];
    [|cbn; by rewrite lookup_insert_eq].
  destruct (decode_iter_cells _ _ _ _) as [yielded|e]; cbn.
  - by rewrite lookup_delete_eq.
  - by rewrite lookup_alter_eq, lookup_insert_eq.
Qed.

End decode_iter.

(** C5 (what the code does).  The directory is removed only by the
    statement after the loop.  With deskew enabled, a page on which the
    deskewer raises and a page with a cell on which [_decode_cell] raises
    both leave [decode_iter] with the temporary directory 0 still in
    existence; on a page that decodes, the directory is gone. *)
Theorem decode_iter_keeps_tempdir_on_error :
  (∃ w', decode_iter (test_collaborators deskewer_no_anchor (constant_decoder 0 0 0)
                        (mkCimbEncoder (fun _ => blank_page)) [(8, 8)] one_cell_order)
           "page.png" true false true true (one_page_world "page.png" blank_page)
         = (w', Raise (Failure "AnchorNotFound")) ∧
         is_Some (tempdirs w' !! 0%nat)) ∧
  (∃ w', decode_iter (test_collaborators deskewer_canonical (constant_decoder 0 2000 0)
                        (mkCimbEncoder (fun _ => blank_page)) [(8, 8)] one_cell_order)
           "page.png" true false true true (one_page_world "page.png" blank_page)
         = (w', Raise (UnboundLocalError "best_dx")) ∧
         is_Some (tempdirs w' !! 0%nat)) ∧
  (∃ w', decode_iter (test_collaborators deskewer_canonical (constant_decoder 0 0 0)
                        (mkCimbEncoder (fun _ => blank_page)) [(8, 8)] one_cell_order)
           "page.png" true false true true (one_page_world "page.png" blank_page)
         = (w', Ok [(0%nat, 0)]) ∧
         tempdirs w' !! 0%nat = None).
Proof.
  repeat split.
  - eexists. split.
    + rewrite decode_iter_deskew, decode_iter_open_deskew. cbn.
      rewrite lookup_singleton_eq. cbn. reflexivity.
    + cbn. by rewrite lookup_insert_eq.
  - eexists. split.
    + rewrite decode_iter_deskew, decode_iter_open_deskew. cbn.
      rewrite lookup_singleton_eq. cbn. reflexivity.
    + cbn. by rewrite lookup_alter_eq, lookup_insert_eq.
  - eexists. split.
    + rewrite decode_iter_deskew, decode_iter_open_deskew. cbn.
      rewrite lookup_singleton_eq. cbn. reflexivity.
    + cbn. by rewrite lookup_delete_eq.
Qed.

(** C6.  With deskew enabled, [decode_iter] hands the sharpened image to the
    symbol classifier exactly when [force_preprocess] is set or one of the
    two dimensions the deskewer reports is below [TOTAL_SIZE]; at
    1024 x 1024 without [force_preprocess] the image is left as it is; and
    the second image of every [_decode_cell] call, the one the colour patch
    is cropped from, is the warped image as it was stored. *)
Theorem decode_iter_sharpens_iff (E : Collaborators) (src_image : string)
    (dark force_preprocess auto_dewarp : bool) (w : World)
    (page : Image) (dims : Z * Z) (warped : Image) :
  image_files w !! src_image = Some page →
  deskewer E page dark auto_dewarp = Ok (dims, warped) →
  let should_preprocess :=
    force_preprocess || ((dims.1 <? TOTAL_SIZE) || (dims.2 <? TOTAL_SIZE)) in
  let img := if should_preprocess then _preprocess_for_decode E warped else warped in
  (should_preprocess = true ↔
     force_preprocess = true ∨ dims.1 < TOTAL_SIZE ∨ dims.2 < TOTAL_SIZE) ∧
  (force_preprocess = false → dims = (TOTAL_SIZE, TOTAL_SIZE) → img = warped) ∧
  (decode_iter E src_image dark force_preprocess true auto_dewarp w).2 =
    decode_iter_cells (new_CimbDecoder E dark BITS_PER_SYMBOL BITS_PER_COLOR) img warped
      (FloodDecodeOrder E (cell_positions E CELL_SPACING CELL_DIMENSIONS CELLS_OFFSET)
                        CELL_DIMENSIONS).
Proof.
  intros Hpage Hdeskew sp img. split; [|split].
  - subst sp. rewrite !orb_true_iff, !Z.ltb_lt. tauto.
  - intros -> ->. reflexivity.
  - rewrite decode_iter_deskew, decode_iter_open_deskew. cbn zeta.
    rewrite Hpage, Hdeskew. fold sp. fold img.
    by destruct (decode_iter_cells _ _ _ _).
Qed.

Lemma decode_iter_sharpens_iff_witness :
  (decode_iter (test_collaborators deskewer_canonical (constant_decoder 0 0 0)
                  (mkCimbEncoder (fun _ => blank_page)) [(8, 8)] one_cell_order)
     "page.png" true false true true (one_page_world "page.png" blank_page)).2 =
  decode_iter_cells (constant_decoder 0 0 0) blank_page blank_page one_cell_order.
Proof.
  exact (proj2 (proj2
    (decode_iter_sharpens_iff
       (test_collaborators deskewer_canonical (constant_decoder 0 0 0)
          (mkCimbEncoder (fun _ => blank_page)) [(8, 8)] one_cell_order)
       "page.png" true false true (one_page_world "page.png" blank_page)
       blank_page (TOTAL_SIZE, TOTAL_SIZE) blank_page
       (lookup_singleton_eq "page.png" blank_page) eq_refl))).
Defined.

(** Below the canonical size in one dimension the sharpening filter runs. *)
Example decode_iter_sharpens_small_page (E : Collaborators) :
  (decode_iter_images E (false || ((1023 <? TOTAL_SIZE) || (1024 <? TOTAL_SIZE))) blank_page).1
  = _preprocess_for_decode E blank_page.
Proof. reflexivity. Qed.

(** ** The byte pipelines *)

(** C7.  For an [ecc] from 0 to 155 the chunk size is
    [floor((155 - ecc) * BITS_PER_OP * 10 / FOUNTAIN_BLOCKS)], which is
    [6 * (155 - ecc)], 750 for the default [ecc] of 30; the fountain stage
    of the encoder's stream and that of the decoder's are built with it. *)
Theorem fountain_chunk_size_value (ecc : Z) :
  0 <= ecc <= 155 →
  _fountain_chunk_size ecc BITS_PER_OP FOUNTAIN_BLOCKS
    = (155 - ecc) * BITS_PER_OP * 10 / FOUNTAIN_BLOCKS ∧
  _fountain_chunk_size ecc BITS_PER_OP FOUNTAIN_BLOCKS = 6 * (155 - ecc) ∧
  _fountain_chunk_size ECC BITS_PER_OP FOUNTAIN_BLOCKS = 750 ∧
  ∀ src_data outfile,
    fountain_chunk_size_of (encode_instream src_data ecc true).1 = Some (6 * (155 - ecc)) ∧
    (encode_instream src_data ecc true).2 = 6 * (155 - ecc) ∧
    fountain_chunk_size_of (decode_outstream outfile ecc true) = Some (6 * (155 - ecc)).
Proof.
  intros Hecc.
  assert (_fountain_chunk_size ecc BITS_PER_OP FOUNTAIN_BLOCKS = 6 * (155 - ecc)) as Hsix.
  { unfold _fountain_chunk_size, int_truediv, BITS_PER_OP, BITS_PER_SYMBOL,
      BITS_PER_COLOR, FOUNTAIN_BLOCKS.
    replace ((155 - ecc) * (4 + 2) * 10) with (6 * (155 - ecc) * 10) by lia.
    apply Z.quot_mul. lia. }
  split; [|split; [done|split; [reflexivity|]]].
  - rewrite Hsix. unfold BITS_PER_OP, BITS_PER_SYMBOL, BITS_PER_COLOR, FOUNTAIN_BLOCKS.
    replace ((155 - ecc) * (4 + 2) * 10) with (6 * (155 - ecc) * 10) by lia.
    by rewrite Z.div_mul.
  - intros src_data outfile. unfold encode_instream, decode_outstream.
    cbn [fst snd]. rewrite Hsix. by destruct (truthy ecc).
Qed.

Lemma fountain_chunk_size_value_witness :
  _fountain_chunk_size 30 BITS_PER_OP FOUNTAIN_BLOCKS = 6 * (155 - 30).
Proof.
  refine (proj1 (proj2 (fountain_chunk_size_value 30 _))). lia.
Defined.

(** C9.  With [ecc = 0] neither pipeline has a Reed-Solomon stage: the
    stream under the bit layer is the fountain stream or the file itself,
    so the bytes written by the decoder's bit layer are what the fountain
    decoder or the file receives, and the bytes the encoder's bit layer
    reads are what the fountain encoder or the file provides, whatever the
    Reed-Solomon codec is. *)
Theorem no_reed_solomon_without_ecc (E : Collaborators) (w : World)
    (src_data outfile : string) (fountain : bool) :
  (encode_instream src_data 0 fountain).1 =
    (if fountain
     then fountain_encoder_stream src_data (_fountain_chunk_size 0 BITS_PER_OP FOUNTAIN_BLOCKS)
     else open_file src_data "rb") ∧
  decode_outstream outfile 0 fountain =
    (if fountain
     then fountain_decoder_stream outfile (_fountain_chunk_size 0 BITS_PER_OP FOUNTAIN_BLOCKS)
     else open_file outfile "wb") ∧
  has_reed_solomon (encode_instream src_data 0 fountain).1 = false ∧
  has_reed_solomon (decode_outstream outfile 0 fountain) = false ∧
  (∀ data, write_all E (decode_outstream outfile 0 fountain) data =
           Ok (outfile,
               if fountain
               then fountain_write E (_fountain_chunk_size 0 BITS_PER_OP FOUNTAIN_BLOCKS) data
               else data)) ∧
  (∀ contents, data_files w !! src_data = Some contents →
     open_reader E w (encode_instream src_data 0 fountain).1 =
     Ok (if fountain
         then fountain_read E (_fountain_chunk_size 0 BITS_PER_OP FOUNTAIN_BLOCKS) contents
         else fun n => take n contents)).
Proof.
  unfold encode_instream, decode_outstream. cbn [truthy Z.eqb negb fst].
  destruct fountain; repeat split; try done; intros contents Hc; cbn; by rewrite Hc.
Qed.

(** With a non-zero [ecc] the Reed-Solomon stage is there. *)
Lemma reed_solomon_with_ecc (src_data outfile : string) (ecc : Z) (fountain : bool) :
  ecc ≠ 0 →
  has_reed_solomon (encode_instream src_data ecc fountain).1 = true ∧
  has_reed_solomon (decode_outstream outfile ecc fountain) = true.
Proof.
  intros Hecc. unfold encode_instream, decode_outstream, truthy.
  destruct (Z.eqb_spec ecc 0); [done|]. by destruct fountain.
Qed.

(** ** The size of the page *)

Lemma size_paste (im src : Image) (xy : Z * Z) : size (paste im src xy) = size im.
Proof. by destruct xy. Qed.

Lemma size_get_image_template (E : Collaborators) (width : Z) (dark : bool) :
  size (_get_image_template E width dark) = (width, width).
Proof.
  unfold _get_image_template.
  repeat match goal with |- context [size (bitmap E ?n)] =>
    destruct (size (bitmap E n)) end.
  by rewrite !size_paste.
Qed.

Lemma size_encode_paste (ct : CimbEncoder) (yielded : list (Z * Z * Z)) (img : Image) :
  size (encode_paste ct img yielded) = size img.
Proof.
  revert img. induction yielded as [|[[bits x] y] yielded IH]; intros img; [done|].
  unfold encode_paste in *. cbn [foldl]. by rewrite IH, size_paste.
Qed.

Lemma open_reader_encode_instream (E : Collaborators) (w : World)
    (src_data : string) (ecc : Z) (fountain : bool) (payload : list byte) :
  data_files w !! src_data = Some payload →
  ∃ reader, open_reader E w (encode_instream src_data ecc fountain).1 = Ok reader.
Proof.
  intros Hfile. unfold encode_instream. cbn [fst].
  destruct (truthy ecc), fountain; cbn; rewrite Hfile; cbn; eauto.
Qed.

(** C8.  Whatever the payload in the source file, its length, the palette,
    the ecc level and the fountain flag, [encode] returns and the image it
    saves is [TOTAL_SIZE] x [TOTAL_SIZE] = 1024 x 1024. *)
Theorem encode_image_size (E : Collaborators) (w : World) (src_data dst_image : string)
    (dark : bool) (ecc : Z) (fountain : bool) (payload : list byte) :
  data_files w !! src_data = Some payload →
  ∃ img,
    encode E src_data dst_image dark ecc fountain w
      = (store_image w (user_path dst_image) img, Ok tt) ∧
    size img = (TOTAL_SIZE, TOTAL_SIZE) ∧
    size img = (1024, 1024).
Proof.
  intros Hfile.
  destruct (open_reader_encode_instream E w src_data ecc fountain payload Hfile)
    as [reader Hreader].
  unfold encode, encode_iter, mbind, py_bind, Image_save.
  destruct (encode_instream src_data ecc fountain) as [rss read_size].
  cbn [fst] in Hreader. rewrite Hreader.
  eexists. split; [reflexivity|].
  by rewrite size_encode_paste, size_get_image_template.
Qed.

Lemma encode_image_size_witness :
  ∃ img,
    encode (test_collaborators deskewer_canonical (constant_decoder 0 0 0)
              (mkCimbEncoder (fun _ => Image_new (8, 8) white)) [(8, 8)] one_cell_order)
           "in.bin" "out.png" true 30 false (one_file_world "in.bin" [x00; x01; x02])
      = (store_image (one_file_world "in.bin" [x00; x01; x02]) (user_path "out.png") img, Ok tt) ∧
    size img = (TOTAL_SIZE, TOTAL_SIZE) ∧
    size img = (1024, 1024).
Proof.
  apply (encode_image_size _ _ _ _ _ _ _ [x00; x01; x02]).
  apply lookup_singleton_eq.
Defined.

(** ** The modelled collaborators on small inputs *)

Local Open Scope nat_scope.

(** Twelve cells in two partitions of three stripes, and ten cells, where
    the stripes of a partition differ in length. *)
Example interleave_order_twelve :
  interleave_order 12 3 2 = [0; 3; 1; 4; 2; 5; 6; 9; 7; 10; 8; 11].
Proof. reflexivity. Qed.

Example interleave_order_ten :
  interleave_order 10 3 2 = [0; 3; 1; 4; 2; 5; 8; 6; 9; 7].
Proof. reflexivity. Qed.

Example interleave_reverse_twelve :
  (fun i => (interleave_reverse (seq 0 12) 3 2).1 !! i) <$> seq 0 12
  = Some <$> [0; 2; 4; 1; 3; 5; 6; 8; 10; 7; 9; 11].
Proof. reflexivity. Qed.

(** The two bytes 0xFF 0x0F read six bits at a time: 111111, 110000,
    1111 and two zero bits, then zero groups. *)
Example bit_file_read_two_bytes :
  bit_file_read [xff; x0f] 6 16384 <$> seq 0 4 = [63; 48; 60; 0]%Z.
Proof. reflexivity. Qed.

(** Groups written to two blocks out of order come out block by block. *)
Example iw_close_two_blocks :
  iw_close (iw_write (iw_write (iw_write (iw_write ∅ 63 1) 48 0) 60 1) 0 0) 6
  = [xc0; x00; xff; xc0].
Proof. reflexivity. Qed.

Example fountain_chunk_size_default : _fountain_chunk_size ECC BITS_PER_OP FOUNTAIN_BLOCKS = 750%Z.
Proof. reflexivity. Qed.

(** ** The interleaved order *)

Lemma divmod_digits (a m q r : nat) : r < m → a = q * m + r → a / m = q ∧ a mod m = r.
Proof.
  intros Hr ->. split.
  - symmetry. apply (Nat.div_unique _ _ _ r); lia.
  - symmetry. apply (Nat.mod_unique _ _ q); lia.
Qed.

Lemma seq_bind_blocks {A : Type} (f : nat → nat → A) (a m : nat) :
  (seq 0 a ≫= fun p => (fun r => f p r) <$> seq 0 m)
  = (fun k => f (k / m) (k mod m)) <$> seq 0 (a * m).
Proof.
  destruct (decide (m = 0)) as [->|Hm].
  { rewrite Nat.mul_0_r. cbn. induction (seq 0 a) as [|x l IH]; [done|]. by cbn. }
  induction a as [|a IH]; [done|].
  rewrite seq_S, bind_app, IH. cbn [mbind list_bind mret]. rewrite app_nil_r.
  replace (S a * m) with (a * m + m) by lia.
  rewrite seq_app, fmap_app. f_equal. cbn [Nat.add].
  apply list_eq. intros i. rewrite !list_lookup_fmap.
  destruct (decide (i < m)) as [Hi|Hi].
  - rewrite !lookup_seq_lt by done. cbn.
    destruct (divmod_digits (a * m + i) m a i) as [-> ->]; [done|lia|done].
  - rewrite !lookup_seq_ge by lia. done.
Qed.

Section interleaving.
Context (B P bs : nat) (HB : 0 < B) (HP : 0 < P).

Local Abbreviation N := (P * B * bs).
Local Abbreviation sigma := (stream_to_cell B bs).
Local Abbreviation tau := (cell_to_stream B bs).

Lemma stream_digits (k : nat) :
  k < N → ∃ p s j, p < P ∧ s < B ∧ j < bs ∧ k = (p * B + s) * bs + j.
Proof.
  intros Hk. assert (0 < bs) by (destruct bs; lia).
  exists (k / (B * bs)), (k mod (B * bs) / bs), (k mod (B * bs) mod bs).
  assert (k mod (B * bs) < B * bs) by (apply Nat.mod_upper_bound; lia).
  repeat split.
  - apply Nat.Div0.div_lt_upper_bound. lia.
  - apply Nat.Div0.div_lt_upper_bound. lia.
  - apply Nat.mod_upper_bound. lia.
  - pose proof (Nat.div_mod_eq k (B * bs)).
    pose proof (Nat.div_mod_eq (k mod (B * bs)) bs). nia.
Qed.

Lemma cell_digits (i : nat) :
  i < N → ∃ p j s, p < P ∧ j < bs ∧ s < B ∧ i = p * (B * bs) + j * B + s.
Proof.
  intros Hi. assert (0 < bs) by (destruct bs; lia).
  exists (i / (B * bs)), (i mod (B * bs) / B), (i mod (B * bs) mod B).
  assert (i mod (B * bs) < B * bs) by (apply Nat.mod_upper_bound; lia).
  repeat split.
  - apply Nat.Div0.div_lt_upper_bound. lia.
  - apply Nat.Div0.div_lt_upper_bound. lia.
  - apply Nat.mod_upper_bound. lia.
  - pose proof (Nat.div_mod_eq i (B * bs)).
    pose proof (Nat.div_mod_eq (i mod (B * bs)) B). nia.
Qed.

Lemma sigma_digits (p s j : nat) :
  s < B → j < bs → sigma ((p * B + s) * bs + j) = p * (B * bs) + j * B + s.
Proof.
  intros Hs Hj. unfold stream_to_cell. cbn zeta.
  destruct (divmod_digits ((p * B + s) * bs + j) (B * bs) p (s * bs + j)) as [-> ->];
    [nia|lia|].
  destruct (divmod_digits (s * bs + j) bs s j) as [-> ->]; [done|done|]. lia.
Qed.

Lemma tau_digits (p j s : nat) :
  j < bs → s < B → tau (p * (B * bs) + j * B + s) = (p * B + s) * bs + j.
Proof.
  intros Hj Hs. unfold cell_to_stream. cbn zeta.
  destruct (divmod_digits (p * (B * bs) + j * B + s) (B * bs) p (j * B + s)) as [-> ->];
    [nia|lia|].
  destruct (divmod_digits (j * B + s) B j s) as [-> ->]; [done|done|]. lia.
Qed.

Lemma sigma_lt (k : nat) : k < N → sigma k < N.
Proof.
  intros (p & s & j & Hp & Hs & Hj & ->)%stream_digits.
  rewrite sigma_digits by done.
  assert (j * B + s < B * bs) by nia.
  assert (p * (B * bs) + B * bs <= P * (B * bs)) by nia. lia.
Qed.

Lemma tau_lt (i : nat) : i < N → tau i < N.
Proof.
  intros (p & j & s & Hp & Hj & Hs & ->)%cell_digits.
  rewrite tau_digits by done.
  assert (p * B + s + 1 <= P * B) by nia.
  assert ((p * B + s) * bs + bs <= P * B * bs) by nia. lia.
Qed.

Lemma tau_sigma (k : nat) : k < N → tau (sigma k) = k.
Proof.
  intros (p & s & j & Hp & Hs & Hj & ->)%stream_digits.
  by rewrite sigma_digits, tau_digits.
Qed.

Lemma sigma_tau (i : nat) : i < N → sigma (tau i) = i.
Proof.
  intros (p & j & s & Hp & Hj & Hs & ->)%cell_digits.
  by rewrite tau_digits, sigma_digits.
Qed.

(** Two cells of one block: the later cell is later in the stream. *)
Lemma tau_block_mono (i1 i2 : nat) :
  i1 < i2 → i2 < N → tau i1 / bs = tau i2 / bs → tau i1 < tau i2.
Proof.
  intros Hlt Hi2 Hblock.
  assert (i1 < N) as Hi1 by lia.
  apply cell_digits in Hi1 as (p1 & j1 & s1 & Hp1 & Hj1 & Hs1 & ->).
  apply cell_digits in Hi2 as (p2 & j2 & s2 & Hp2 & Hj2 & Hs2 & ->).
  rewrite !tau_digits in * by done.
  destruct (divmod_digits ((p1 * B + s1) * bs + j1) bs (p1 * B + s1) j1) as [E1 _];
    [done|done|].
  destruct (divmod_digits ((p2 * B + s2) * bs + j2) bs (p2 * B + s2) j2) as [E2 _];
    [done|done|].
  rewrite E1, E2 in Hblock.
  assert (p1 = p2 ∧ s1 = s2) as [-> ->].
  { destruct (divmod_digits (p1 * B + s1) B p1 s1) as [Ea Eb]; [done|done|].
    destruct (divmod_digits (p2 * B + s2) B p2 s2) as [Ec Ed]; [done|done|].
    rewrite Hblock in Ea, Eb. split; congruence. }
  nia.
Qed.

(** The order of the spec, when the cells divide evenly. *)
Lemma interleave_order_even : interleave_order N B P = sigma <$> seq 0 N.
Proof.
  unfold interleave_order.
  assert (N / P = B * bs) as ->.
  { destruct (divmod_digits N P (B * bs) 0) as [-> _]; [done|lia|done]. }
  cbn zeta.
  transitivity (seq 0 P ≫= fun p =>
                  (fun r => p * (B * bs) + r / bs + r mod bs * B) <$> seq 0 (B * bs)).
  { apply list_bind_ext; [|done]. intros p.
    rewrite <- (seq_bind_blocks (fun s j => p * (B * bs) + s + j * B) B bs).
    apply Forall_bind_ext. apply Forall_forall. intros s Hs%elem_of_seq.
    f_equal. f_equal.
    destruct (decide (bs = 0)) as [Hz|Hnz].
    { rewrite Hz, Nat.mul_0_r. cbn [Nat.sub Nat.add]. apply Nat.div_small. lia. }
    destruct (divmod_digits (B * bs - s + (B - 1)) B bs (B - 1 - s)) as [-> _];
      [lia| |done].
    assert (B <= B * bs) by nia. lia. }
  rewrite (seq_bind_blocks (fun p r => p * (B * bs) + r / bs + r mod bs * B) P (B * bs)).
  replace (P * (B * bs)) with N by lia. done.
Qed.

End interleaving.

Lemma omap_lookup_defined {A C : Type} (f : A → option C) (l : list A) (k : nat) :
  (∀ a, a ∈ l → is_Some (f a)) → omap f l !! k = l !! k ≫= f.
Proof.
  revert k. induction l as [|a l IH]; intros k Hdef; [done|].
  destruct (Hdef a) as [c Hc]; [left|]. cbn. rewrite Hc.
  destruct k as [|k]; cbn; [done|]. apply IH. intros a' Ha'. apply Hdef. by right.
Qed.

Lemma omap_length_defined {A C : Type} (f : A → option C) (l : list A) :
  (∀ a, a ∈ l → is_Some (f a)) → length (omap f l) = length l.
Proof.
  induction l as [|a l IH]; intros Hdef; [done|].
  destruct (Hdef a) as [c Hc]; [left|]. cbn. rewrite Hc. cbn. f_equal.
  apply IH. intros a' Ha'. apply Hdef. by right.
Qed.

Section interleaved_cells.
Context {A : Type} (B P bs : nat) (HB : 0 < B) (HP : 0 < P).
Context (cells : list A) (Hcells : length cells = P * B * bs).

Local Abbreviation sigma := (stream_to_cell B bs).
Local Abbreviation tau := (cell_to_stream B bs).

Lemma interleave_defined (i : nat) :
  i ∈ sigma <$> seq 0 (P * B * bs) → is_Some (cells !! i).
Proof.
  intros (k & -> & Hk%elem_of_seq)%list_elem_of_fmap.
  apply lookup_lt_is_Some. rewrite Hcells. apply sigma_lt; lia.
Qed.

Lemma interleave_lookup (k : nat) :
  k < P * B * bs → interleave cells B P !! k = cells !! sigma k.
Proof.
  intros Hk. unfold interleave. rewrite Hcells, interleave_order_even by done.
  rewrite omap_lookup_defined by apply interleave_defined.
  by rewrite list_lookup_fmap, lookup_seq_lt.
Qed.

Lemma interleave_length : length (interleave cells B P) = P * B * bs.
Proof.
  unfold interleave. rewrite Hcells, interleave_order_even by done.
  rewrite omap_length_defined by apply interleave_defined.
  by rewrite length_fmap, length_seq.
Qed.

Lemma interleave_reverse_lookup (i : nat) :
  i < P * B * bs → (interleave_reverse cells B P).1 !! i = Some (tau i).
Proof.
  intros Hi. unfold interleave_reverse. cbn [fst].
  rewrite Hcells, interleave_order_even by done.
  assert (imap (fun k i => (i, k)) (sigma <$> seq 0 (P * B * bs))
          = (fun k => (sigma k, k)) <$> seq 0 (P * B * bs)) as ->.
  { apply list_eq. intros k. rewrite list_lookup_imap, !list_lookup_fmap.
    destruct (decide (k < P * B * bs)) as [Hk|Hk].
    - by rewrite lookup_seq_lt.
    - by rewrite lookup_seq_ge by lia. }
  apply elem_of_list_to_map_1.
  - rewrite <- list_fmap_compose.
    apply NoDup_fmap_2_strong; [|apply NoDup_seq].
    intros k1 k2 Hk1%elem_of_seq Hk2%elem_of_seq Heq. cbn in Heq.
    rewrite <- (tau_sigma B P bs HB HP k1), <- (tau_sigma B P bs HB HP k2) by lia.
    by rewrite Heq.
  - apply list_elem_of_fmap. exists (tau i). split.
    + by rewrite (sigma_tau B P bs HB HP).
    + apply elem_of_seq. pose proof (tau_lt B P bs HB HP i Hi). lia.
Qed.

Lemma interleave_reverse_block_size :
  (interleave_reverse cells B P).2 = bs.
Proof.
  unfold interleave_reverse. cbn [snd]. rewrite Hcells.
  destruct (divmod_digits (P * B * bs) (B * P) bs 0) as [-> _]; [lia|lia|done].
Qed.

End interleaved_cells.

(** ** The rendered page *)

Local Open Scope Z_scope.

Lemma inside_tile_covers (tile : Image) (x y u v : Z) :
  size tile = (CELL_SIZE, CELL_SIZE) →
  inside tile (u - x) (v - y) = true ↔ covers (x, y) u v.
Proof.
  intros Hsize. unfold inside, width, height, covers. rewrite Hsize. cbn [fst snd].
  rewrite !andb_true_iff, !Z.leb_le, !Z.ltb_lt. lia.
Qed.

Section rendered_page.
Context (enc : CimbEncoder) (Henc : draws_tiles enc).

Lemma load_paste_outside (im : Image) (bits x y u v : Z) :
  ¬ covers (x, y) u v → load (paste im (ct_encode enc bits) (x, y)) u v = load im u v.
Proof.
  intros Hout. cbn.
  destruct (inside (ct_encode enc bits) (u - x) (v - y)) eqn:Hin; [|done].
  by apply inside_tile_covers in Hin.
Qed.

Lemma load_paste_inside (im : Image) (bits x y u v : Z) :
  covers (x, y) u v →
  load (paste im (ct_encode enc bits) (x, y)) u v = load (ct_encode enc bits) (u - x) (v - y).
Proof.
  intros Hin. cbn.
  apply (inside_tile_covers (ct_encode enc bits)) in Hin; [|done]. by rewrite Hin.
Qed.

Lemma encode_paste_app (l1 l2 : list (Z * Z * Z)) (im : Image) :
  encode_paste enc im (l1 ++ l2) = encode_paste enc (encode_paste enc im l1) l2.
Proof. unfold encode_paste. by rewrite foldl_app. Qed.

Lemma encode_paste_cons (bits x y : Z) (l : list (Z * Z * Z)) (im : Image) :
  encode_paste enc im ((bits, x, y) :: l)
  = encode_paste enc (paste im (ct_encode enc bits) (x, y)) l.
Proof. done. Qed.

Lemma encode_paste_untouched (yielded : list (Z * Z * Z)) (im : Image) (u v : Z) :
  Forall (fun e => ¬ covers (e.1.2, e.2) u v) yielded →
  load (encode_paste enc im yielded) u v = load im u v.
Proof.
  revert im. induction yielded as [|[[bits x] y] yielded IH]; intros im Hall; [done|].
  apply Forall_cons in Hall as [Hout Hall]. rewrite encode_paste_cons.
  rewrite IH by done. by apply load_paste_outside.
Qed.

Lemma encode_paste_last (before after : list (Z * Z * Z)) (bits x y : Z)
    (im : Image) (u v : Z) :
  covers (x, y) u v →
  Forall (fun e => ¬ covers (e.1.2, e.2) u v) after →
  load (encode_paste enc im (before ++ (bits, x, y) :: after)) u v
  = load (ct_encode enc bits) (u - x) (v - y).
Proof.
  intros Hin Hafter. rewrite encode_paste_app, encode_paste_cons.
  rewrite encode_paste_untouched by done. by apply load_paste_inside.
Qed.

Context (B P bs : nat) (HB : (0 < B)%nat) (HP : (0 < P)%nat).
Context (cells : list (Z * Z)) (Hcells : length cells = (P * B * bs)%nat).
Context (Hnodup : NoDup cells) (Hapart : cells_apart cells).
Context (g : nat → Z).

Local Abbreviation sigma := (stream_to_cell B bs).
Local Abbreviation tau := (cell_to_stream B bs).

Local Abbreviation page_list := (yielded_of cells B P g).

Lemma yielded_lookup (k : nat) :
  (k < P * B * bs)%nat →
  page_list !! k = (fun xy => (g k, xy.1, xy.2)) <$> cells !! sigma k.
Proof.
  intros Hk. unfold yielded_of.
  rewrite list_lookup_imap, (interleave_lookup B P bs HB HP cells Hcells k Hk).
  by destruct (cells !! sigma k) as [[x y]|].
Qed.

(** On the page, the pixels of cell [i] are those of the tile of the
    group read for it. *)
Lemma rendered_cell (im : Image) (i : nat) (x y u v : Z) :
  cells !! i = Some (x, y) → covers (x, y) u v →
  load (encode_paste enc im page_list) u v
  = load (ct_encode enc (g (tau i))) (u - x) (v - y).
Proof.
  intros Hi Hin.
  assert (i < P * B * bs)%nat as Hlt by (rewrite <- Hcells; by eapply lookup_lt_Some).
  pose proof (tau_lt B P bs HB HP i Hlt) as Hk.
  assert (page_list !! tau i = Some (g (tau i), x, y)) as Hy.
  { rewrite yielded_lookup by done. by rewrite (sigma_tau B P bs HB HP), Hi. }
  rewrite <- (take_drop_middle _ _ _ Hy).
  apply encode_paste_last; [done|].
  apply Forall_lookup. intros t [[bits' x'] y'] Ht. cbn [fst snd].
  rewrite lookup_drop in Ht.
  assert (S (tau i) + t < P * B * bs)%nat as Hk'.
  { apply lookup_lt_Some in Ht. unfold yielded_of in Ht.
    by rewrite length_imap, (interleave_length B P bs HB HP cells Hcells) in Ht. }
  rewrite yielded_lookup in Ht by done.
  destruct (cells !! sigma (S (tau i) + t)) as [[x'' y'']|] eqn:Hc; [|done].
  cbn in Ht. injection Ht as _ -> ->.
  assert ((x', y') ≠ (x, y)) as Hne.
  { intros Heq. rewrite Heq in Hc.
    pose proof (NoDup_lookup _ _ _ _ Hnodup Hc Hi) as Hsame.
    pose proof (tau_sigma B P bs HB HP _ Hk') as Hts. rewrite Hsame in Hts. lia. }
  intros Hin'.
  destruct (Hapart (x', y') (x, y)) as [Hfar|Hfar]; [| |done| |].
  - by eapply list_elem_of_lookup_2.
  - by eapply list_elem_of_lookup_2.
  - unfold covers, CELL_SIZE in *. cbn [fst snd] in *. lia.
  - unfold covers, CELL_SIZE in *. cbn [fst snd] in *. lia.
Qed.

End rendered_page.

(** ** Decoding an unspoilt page *)

Section clean_decoding.
Context (enc : CimbEncoder) (dec : CimbDecoder).
Context (Henc : draws_tiles enc) (Hread : reads_clean_tiles enc dec).

Lemma decode_cell_clean (img : Image) (x y : Z) (drift : Drift) (bits : Z) :
  0 <= bits < 2 ^ BITS_PER_OP →
  drift_x drift = 0 → drift_y drift = 0 → head (pairs drift) = Some (0, 0) →
  (∀ a b, 0 <= a < CELL_SIZE → 0 <= b < CELL_SIZE →
     getpixel img (x + a) (y + b) = getpixel (ct_encode enc bits) a b) →
  _decode_cell dec img img x y drift = Ok (bits, 0, 0, 0).
Proof.
  intros Hbits Hx Hy Hhead Hpixels.
  destruct (pairs drift) as [|p ps] eqn:Hpairs; [done|]. cbn in Hhead. simplify_eq.
  destruct (Hread bits (crop img (symbol_box x y drift (0, 0)))
              (crop img (color_box x y drift (0, 0)))) as [Hdist Hsum].
  - done.
  - unfold symbol_box, crop. cbn. f_equal; lia.
  - intros a b Ha Hb. rewrite <- Hpixels by done.
    unfold getpixel at 1, inside, width, height, symbol_box, crop.
    cbn [size load fst snd]. rewrite Hx, Hy.
    replace (x + 0 + 0 + CELL_SIZE - (x + 0 + 0)) with CELL_SIZE by lia.
    replace (y + 0 + 0 + CELL_SIZE - (y + 0 + 0)) with CELL_SIZE by lia.
    destruct (Z.leb_spec 0 a), (Z.ltb_spec a CELL_SIZE),
      (Z.leb_spec 0 b), (Z.ltb_spec b CELL_SIZE); try lia. cbn.
    f_equal; lia.
  - apply color_box_size.
  - intros a b Ha Hb. rewrite <- Hpixels by (unfold CELL_SIZE in *; lia).
    unfold getpixel at 1, inside, width, height, color_box, crop.
    cbn [size load fst snd]. rewrite Hx, Hy.
    replace (x + 0 + 0 + CELL_SIZE - 2 - (x + 0 + 0 + 1)) with (CELL_SIZE - 3) by lia.
    replace (y + 0 + 0 + CELL_SIZE - 2 - (y + 0 + 0 + 1)) with (CELL_SIZE - 3) by lia.
    destruct (Z.leb_spec 0 a), (Z.ltb_spec a (CELL_SIZE - 3)),
      (Z.leb_spec 0 b), (Z.ltb_spec b (CELL_SIZE - 3)); try lia. cbn.
    f_equal; lia.
  - unfold _decode_cell. rewrite Hpairs, search_step. cbn zeta.
    unfold symbol_distance, symbol_bits. rewrite Hdist.
    change (Z.min 0 1000) with 0. cbn [Z.ltb Z.compare Z.eqb].
    unfold color_box, symbol_box in *. cbn [fst snd] in *.
    by rewrite Hsum.
Qed.

Lemma decode_iter_cells_clean (img : Image) (G : nat → Z) (order : DecodeOrder) :
  Forall (fun '(i, xy, drift) =>
            _decode_cell dec img img xy.1 xy.2 drift = Ok (G i, 0, 0, 0))
         (clean_run order) →
  decode_iter_cells dec img img order
  = Ok ((fun e => (e.1.1, G e.1.1)) <$> clean_run order).
Proof.
  induction order as [|i [x y] drift update IH]; intros Hall; [done|].
  cbn [clean_run] in Hall. apply Forall_cons in Hall as [Hcell Hall].
  cbn [fst snd] in Hcell. cbn [decode_iter_cells clean_run].
  rewrite Hcell. cbn. by rewrite (IH 0 0 0 Hall).
Qed.

End clean_decoding.

(** ** The decoded pairs, sorted *)

Local Open Scope nat_scope.

#[local] Instance items_le_trans : Transitive items_le.
Proof. intros [a1 a2] [b1 b2] [c1 c2]. unfold items_le. cbn. lia. Qed.

#[local] Instance items_le_antisymm : AntiSymm (=) items_le.
Proof.
  intros [a1 a2] [b1 b2]. unfold items_le. cbn. intros H1 H2.
  f_equal; lia.
Qed.

#[local] Instance items_le_total : Total items_le.
Proof. intros [a1 a2] [b1 b2]. unfold items_le. cbn. lia. Qed.

Lemma strongly_sorted_lt_seq (a n : nat) : StronglySorted lt (seq a n).
Proof.
  revert a. induction n as [|n IH]; intros a; cbn; constructor; [apply IH|].
  apply Forall_forall. intros x Hx%elem_of_seq. lia.
Qed.

Lemma strongly_sorted_lt_NoDup (l : list nat) : StronglySorted lt l → NoDup l.
Proof.
  induction 1 as [|x l _ IH Hall]; constructor; [|done].
  intros Hin. rewrite Forall_forall in Hall. specialize (Hall x Hin). lia.
Qed.

Lemma sorted_lt_unique (l1 l2 : list nat) :
  StronglySorted lt l1 → StronglySorted lt l2 → (∀ x, x ∈ l1 ↔ x ∈ l2) → l1 = l2.
Proof.
  intros H1 H2 Hsame. apply (StronglySorted_unique_strong lt); try done.
  - intros; lia.
  - apply NoDup_Permutation; auto using strongly_sorted_lt_NoDup.
Qed.

Lemma sorted_le_seq (n : nat) (l : list nat) :
  NoDup l → (∀ x, x ∈ l ↔ x < n) → merge_sort Nat.le l = seq 0 n.
Proof.
  intros Hnodup Hsame.
  apply (Sorted_unique Nat.le).
  - apply Sorted_merge_sort. apply _.
  - assert (∀ a m, Sorted Nat.le (seq a m)) as Hs; [|apply Hs].
    intros a m. revert a. induction m as [|m IH]; intros a; cbn; constructor; [apply IH|].
    destruct m; cbn; constructor. lia.
  - rewrite merge_sort_Permutation. apply NoDup_Permutation; [done|apply NoDup_seq|].
    intros x. rewrite Hsame, elem_of_seq. lia.
Qed.

Section sorted_items.
Context (G : nat → Z) (n : nat).

Lemma fst_pairs (l : list nat) : ((fun i => (i, G i)) <$> l).*1 = l.
Proof. induction l as [|i l IH]; cbn; [done|]. by rewrite IH. Qed.

Lemma dict_of_fold (l : list (nat * Z)) (acc : gmap nat Z) (i : nat) :
  Forall (fun e => e.2 = G e.1) l →
  foldl (fun d '(i, bits) => <[i := bits]> d) acc l !! i
  = if decide (i ∈ l.*1) then Some (G i) else acc !! i.
Proof.
  revert acc. induction l as [|[j bits] l IH]; intros acc Hall.
  { cbn. by rewrite decide_False by apply not_elem_of_nil. }
  apply Forall_cons in Hall as [Hj Hall]. cbn in Hj. subst bits.
  cbn [foldl]. rewrite IH by done. cbn [fmap list_fmap fst].
  destruct (decide (i ∈ l.*1)) as [Hin|Hnin].
  - by rewrite decide_True by (by right).
  - destruct (decide (i = j)) as [->|Hne].
    + rewrite decide_True by left. apply lookup_insert_eq.
    + rewrite decide_False by (rewrite elem_of_cons; tauto). by apply lookup_insert_ne.
Qed.

Lemma sorted_items_seq (yielded : list (nat * Z)) :
  Forall (fun e => e.2 = G e.1) yielded →
  (∀ i, i ∈ yielded.*1 ↔ i < n) →
  merge_sort items_le (map_to_list (dict_of yielded))
  = (fun i => (i, G i)) <$> seq 0 n.
Proof.
  intros Hvalues Hkeys.
  assert (NoDup ((fun i => (i, G i)) <$> seq 0 n).*1) as Hnodup.
  { rewrite fst_pairs. apply NoDup_seq. }
  assert (dict_of yielded = list_to_map ((fun i => (i, G i)) <$> seq 0 n)) as ->.
  { apply map_eq. intros i. unfold dict_of. rewrite dict_of_fold by done.
    rewrite lookup_empty. destruct (decide (i ∈ yielded.*1)) as [Hin|Hnin].
    - symmetry. apply elem_of_list_to_map_1; [done|].
      apply list_elem_of_fmap. exists i. split; [done|].
      apply elem_of_seq. apply Hkeys in Hin. lia.
    - symmetry. apply not_elem_of_list_to_map_1.
      rewrite fst_pairs, elem_of_seq. rewrite Hkeys in Hnin. lia. }
  apply (Sorted_unique items_le).
  - apply Sorted_merge_sort. apply _.
  - apply StronglySorted_Sorted.
    assert (∀ a m, StronglySorted items_le ((fun i => (i, G i)) <$> seq a m)) as Hs;
      [|apply Hs].
    intros a m. revert a. induction m as [|m IH]; intros a; cbn; constructor; [apply IH|].
    apply Forall_fmap, Forall_forall. intros x Hx%elem_of_seq.
    unfold items_le. cbn. lia.
  - rewrite merge_sort_Permutation. by apply map_to_list_to_map.
Qed.

End sorted_items.

(** ** The interleaved writer *)

Lemma decode_write_ok (bs : nat) (lk : gmap nat nat) (G : nat → Z) (t : nat → nat)
    (indices : list nat) (iw : gmap nat (list Z)) :
  bs ≠ 0 →
  Forall (fun i => lk !! i = Some (t i)) indices →
  decode_write lk bs ((fun i => (i, G i)) <$> indices) iw
  = (foldl (fun iw e => iw_write iw e.1 e.2) iw ((fun i => (G i, t i / bs)) <$> indices),
     None).
Proof.
  intros Hbs. revert iw. induction indices as [|i indices IH]; intros iw Hall; [done|].
  apply Forall_cons in Hall as [Hi Hall]. cbn [fmap list_fmap decode_write foldl].
  rewrite Hi. destruct (Nat.eqb_spec bs 0); [done|]. by apply IH.
Qed.

Lemma iw_fold_lookup (writes : list (Z * nat)) (iw : gmap nat (list Z)) (b : nat) :
  default [] (foldl (fun iw e => iw_write iw e.1 e.2) iw writes !! b)
  = default [] (iw !! b) ++ (filter (fun e => e.2 = b) writes).*1.
Proof.
  revert iw. induction writes as [|[bits blk] writes IH]; intros iw.
  { cbn. by rewrite app_nil_r. }
  cbn [foldl fst snd]. rewrite IH. unfold iw_write.
  rewrite filter_cons. cbn [snd].
  destruct (decide (blk = b)) as [->|Hne].
  - rewrite lookup_insert_eq. cbn. by rewrite <- app_assoc.
  - by rewrite lookup_insert_ne.
Qed.

Lemma iw_fold_dom (writes : list (Z * nat)) (iw : gmap nat (list Z)) (b : nat) :
  b ∈ dom (foldl (fun iw e => iw_write iw e.1 e.2) iw writes)
  ↔ b ∈ dom iw ∨ b ∈ writes.*2.
Proof.
  revert iw. induction writes as [|[bits blk] writes IH]; intros iw.
  { cbn. split; [by left|]. intros [?|Hb]; [done|]. by apply elem_of_nil in Hb. }
  cbn [foldl fst snd fmap list_fmap]. rewrite IH. unfold iw_write.
  rewrite dom_insert, elem_of_union, elem_of_singleton, elem_of_cons. tauto.
Qed.

Lemma block_writes (bs : nat) (g : nat → Z) (t : nat → nat) (indices : list nat) (b : nat) :
  (filter (fun e => e.2 = b) ((fun i => (g (t i), t i / bs)) <$> indices)).*1
  = g <$> filter (fun k => k / bs = b) (t <$> indices).
Proof.
  induction indices as [|i indices IH]; [done|].
  cbn [fmap list_fmap]. rewrite !filter_cons. cbn [snd].
  destruct (decide (t i / bs = b)); cbn; by rewrite IH.
Qed.

Section blocks.
Context (B P bs : nat) (HB : 0 < B) (HP : 0 < P) (Hbs : bs ≠ 0).

Local Abbreviation N := (P * B * bs).
Local Abbreviation tau := (cell_to_stream B bs).

(** Taken in the order of the cells, the stream indices of a block come
    out in the order of the stream. *)
Lemma block_in_stream_order (b : nat) :
  b < P * B →
  filter (fun k => k / bs = b) (tau <$> seq 0 N) = seq (b * bs) bs.
Proof.
  intros Hb. apply sorted_lt_unique.
  - assert (∀ l, StronglySorted lt l → Forall (fun i => i < N) l →
                 StronglySorted lt (filter (fun k => k / bs = b) (tau <$> l))) as Hs.
    { induction 1 as [|x l Hl IH Hx]; intros Hall; [constructor|].
      apply Forall_cons in Hall as [HxN Hall].
      cbn [fmap list_fmap]. rewrite filter_cons.
      destruct (decide (tau x / bs = b)) as [Hblock|]; [|by apply IH].
      constructor; [by apply IH|].
      apply Forall_forall. intros k [Hk (y & -> & Hy)%list_elem_of_fmap]%list_elem_of_filter.
      rewrite Forall_forall in Hx, Hall.
      apply (tau_block_mono B P bs HB HP); [by apply Hx|by apply Hall|congruence]. }
    apply Hs; [apply strongly_sorted_lt_seq|].
    apply Forall_forall. intros i Hi%elem_of_seq. lia.
  - apply strongly_sorted_lt_seq.
  - intros k. rewrite list_elem_of_filter, list_elem_of_fmap, elem_of_seq. split.
    + intros [Hblock _]. subst b.
      pose proof (Nat.div_mod_eq k bs). pose proof (Nat.mod_upper_bound k bs Hbs). nia.
    + intros Hk.
      destruct (divmod_digits k bs b (k - b * bs)) as [Hdiv _]; [lia|lia|].
      split; [done|].
      assert (k < N) as HkN by nia.
      exists (stream_to_cell B bs k). split.
      * by rewrite (tau_sigma B P bs HB HP).
      * apply elem_of_seq. pose proof (sigma_lt B P bs HB HP k HkN). lia.
Qed.

End blocks.

(** ** Bits, bytes and groups *)

Lemma take_drop_padded (l : list bool) (s w : nat) :
  take w (drop s l ++ replicate w false) = bit_at l <$> seq s w.
Proof.
  apply list_eq. intros j. rewrite list_lookup_fmap.
  destruct (decide (j < w)) as [Hj|Hj].
  - rewrite lookup_take_lt, lookup_seq_lt by done. cbn. unfold bit_at.
    destruct (decide (s + j < length l)) as [Hin|Hout].
    + rewrite lookup_app_l by (rewrite length_drop; lia). rewrite lookup_drop.
      by destruct (lookup_lt_is_Some_2 l (s + j) Hin) as [c ->].
    + rewrite lookup_app_r by (rewrite length_drop; lia).
      rewrite lookup_replicate_2 by (rewrite length_drop; lia).
      by rewrite (lookup_ge_None_2 l) by lia.
  - rewrite lookup_take_ge, lookup_seq_ge by lia. done.
Qed.

Lemma bits_to_Z_snoc (l : list bool) (b : bool) :
  bits_to_Z (l ++ [b]) = (2 * bits_to_Z l + Z.b2z b)%Z.
Proof. unfold bits_to_Z. by rewrite foldl_snoc. Qed.

Lemma bits_to_Z_range (l : list bool) : (0 <= bits_to_Z l < 2 ^ Z.of_nat (length l))%Z.
Proof.
  induction l as [|b l IH] using rev_ind; [cbn; lia|].
  rewrite bits_to_Z_snoc, length_app. cbn [length].
  replace (Z.of_nat (length l + 1)) with (Z.succ (Z.of_nat (length l))) by lia.
  rewrite Z.pow_succ_r by lia. destruct b; cbn [Z.b2z]; lia.
Qed.

Lemma Z_to_bits_to_Z (l : list bool) : Z_to_bits (length l) (bits_to_Z l) = l.
Proof.
  induction l as [|b l IH] using rev_ind; [done|].
  rewrite bits_to_Z_snoc, length_app. cbn [length].
  replace (length l + 1) with (S (length l)) by lia. cbn [Z_to_bits].
  assert ((2 * bits_to_Z l + Z.b2z b) / 2 = bits_to_Z l)%Z as ->.
  { symmetry. apply (Z.div_unique _ _ _ (Z.b2z b)); [|done].
    destruct b; cbn [Z.b2z]; lia. }
  rewrite IH. f_equal. f_equal.
  destruct b; cbn [Z.b2z]; [apply Z.odd_odd|].
  rewrite Z.add_0_r. apply Z.odd_even.
Qed.

Lemma length_bits_of_byte (c : byte) : length (bits_of_byte c) = 8.
Proof. unfold bits_of_byte. by destruct (to_bits c) as (?&?&?&?&?&?&?&?). Qed.

Lemma byte_of_bits_of_byte (c : byte) : byte_of_bits (bits_of_byte c) = c.
Proof.
  unfold bits_of_byte, byte_of_bits.
  destruct (to_bits c) as (b0&b1&b2&b3&b4&b5&b6&b7) eqn:Hc.
  rewrite <- Hc. apply of_bits_to_bits.
Qed.

Lemma bit_at_zero_byte (r : nat) : bit_at (bits_of_byte x00) r = false.
Proof. do 8 (destruct r as [|r]; [done|]). done. Qed.

(** The bits of a byte stream, byte by byte. *)
Lemma bit_at_bitstream (data : list byte) (q r : nat) :
  r < 8 → bit_at (bitstream data) (8 * q + r) = bit_at (bits_of_byte (byte_at data q)) r.
Proof.
  intros Hr. revert q. induction data as [|c data IH]; intros q.
  { unfold bitstream, byte_at. cbn. by rewrite bit_at_zero_byte. }
  unfold bitstream, bit_at in *. cbn [mbind list_bind].
  destruct q as [|q].
  - rewrite lookup_app_l by (rewrite length_bits_of_byte; lia).
    by replace (8 * 0 + r) with r by lia.
  - rewrite lookup_app_r by (rewrite length_bits_of_byte; lia).
    rewrite length_bits_of_byte.
    replace (8 * S q + r - 8) with (8 * q + r) by lia. apply IH.
Qed.

(** Modelled [read()]: the [k]-th group of the stream's bits. *)
Lemma bit_file_read_group (data : list byte) (w : nat) (read_size : Z) (k : nat) :
  bit_file_read data w read_size k = group_of data w k.
Proof. unfold bit_file_read, group_of. by rewrite take_drop_padded. Qed.

Lemma seq_bind_runs {A : Type} (f : nat → A) (w a n : nat) :
  (seq a n ≫= fun k => f <$> seq (k * w) w) = f <$> seq (a * w) (n * w).
Proof.
  revert a. induction n as [|n IH]; intros a; [done|].
  cbn [seq mbind list_bind]. rewrite IH.
  replace (S n * w) with (w + n * w) by lia.
  rewrite seq_app, fmap_app. do 3 f_equal. lia.
Qed.

(** Groups written back as bits: the run of the stream they were read from. *)
Lemma groups_to_bits (bits : list bool) (w a n : nat) :
  ((fun k => bits_to_Z (bit_at bits <$> seq (k * w) w)) <$> seq a n) ≫= Z_to_bits w
  = bit_at bits <$> seq (a * w) (n * w).
Proof.
  rewrite <- seq_bind_runs.
  induction (seq a n) as [|k l IH]; [done|].
  cbn [fmap list_fmap mbind list_bind]. rewrite IH. f_equal.
  rewrite <- (Z_to_bits_to_Z (bit_at bits <$> seq (k * w) w)) at 2.
  by rewrite length_fmap, length_seq.
Qed.

(** A run of the bit stream that starts and ends between bytes, packed. *)
Lemma pack_bytes_run (data : list byte) (s m : nat) :
  pack_bytes (bit_at (bitstream data) <$> seq (8 * s) (8 * m)) = byte_at data <$> seq s m.
Proof.
  unfold pack_bytes. rewrite length_fmap, length_seq.
  assert ((8 * m + 7) / 8 = m) as ->.
  { destruct (divmod_digits (8 * m + 7) 8 m 7) as [-> _]; lia. }
  apply list_eq. intros k. rewrite !list_lookup_fmap.
  destruct (decide (k < m)) as [Hk|Hk]; [|by rewrite !lookup_seq_ge by lia].
  rewrite !lookup_seq_lt by done. cbn. f_equal.
  rewrite take_drop_padded.
  rewrite <- (byte_of_bits_of_byte (byte_at data (s + k))). f_equal.
  apply list_eq. intros r.
  destruct (decide (r < 8)) as [Hr|Hr].
  - rewrite list_lookup_fmap, lookup_seq_lt by done. cbn.
    unfold bit_at at 1. rewrite list_lookup_fmap, lookup_seq_lt by lia. cbn.
    match goal with
    | |- context [bit_at _ ?t] => replace t with (8 * (s + k) + r) by lia
    end.
    rewrite bit_at_bitstream by done. unfold bit_at.
    destruct (bits_of_byte (byte_at data (s + k)) !! r) eqn:Hb; [done|].
    apply lookup_ge_None in Hb. rewrite length_bits_of_byte in Hb. lia.
  - rewrite list_lookup_fmap, lookup_seq_ge by lia. cbn. symmetry.
    apply lookup_ge_None. rewrite length_bits_of_byte. lia.
Qed.

Lemma byte_at_seq (data : list byte) (n : nat) :
  byte_at data <$> seq 0 n = fit_to n data.
Proof.
  unfold fit_to. apply list_eq. intros t. rewrite list_lookup_fmap. unfold byte_at.
  destruct (decide (t < n)) as [Hn|Hn].
  - rewrite lookup_seq_lt by done. cbn [fmap option_fmap option_map Nat.add].
    destruct (decide (t < length data)) as [Ht|Ht].
    + rewrite lookup_app_l by (rewrite length_take; lia).
      rewrite lookup_take_lt by done.
      by destruct (lookup_lt_is_Some_2 data t Ht) as [c ->].
    + rewrite lookup_app_r by (rewrite length_take; lia).
      rewrite length_take, (lookup_ge_None_2 data) by lia.
      by rewrite lookup_replicate_2 by lia.
  - rewrite lookup_seq_ge by lia. cbn. symmetry.
    apply lookup_ge_None. rewrite length_app, length_take, length_replicate. lia.
Qed.

(** ** What the writer holds when every cell has been written *)

Section written_stream.
Context (B P q : nat) (HB : 0 < B) (HP : 0 < P) (Hq : 0 < q).
Context (data : list byte).

Local Abbreviation tau := (cell_to_stream B (4 * q)).
Local Abbreviation g := (group_of data 6).
Local Abbreviation writes := (all_writes B P (4 * q) g).

Lemma written_blocks (b : nat) :
  b ∈ writes.*2 ↔ b < P * B.
Proof.
  unfold all_writes. rewrite <- list_fmap_compose, list_elem_of_fmap. split.
  - intros (i & -> & Hi%elem_of_seq). unfold compose. cbn [snd].
    assert (i < P * B * (4 * q)) as HiN by lia.
    pose proof (tau_lt B P (4 * q) HB HP i HiN) as Hlt.
    apply Nat.Div0.div_lt_upper_bound. lia.
  - intros Hb. exists (stream_to_cell B (4 * q) (b * (4 * q))).
    assert (b * (4 * q) < P * B * (4 * q)) as Hk by nia.
    split.
    + unfold compose. cbn [snd]. rewrite (tau_sigma B P (4 * q) HB HP) by done.
      symmetry. apply Nat.div_mul. lia.
    + apply elem_of_seq. pose proof (sigma_lt B P (4 * q) HB HP _ Hk). lia.
Qed.

Lemma written_block (b : nat) :
  b < P * B →
  default [] (foldl (fun iw e => iw_write iw e.1 e.2) ∅ writes !! b)
  = g <$> seq (b * (4 * q)) (4 * q).
Proof.
  intros Hb. rewrite iw_fold_lookup, lookup_empty. cbn [default app].
  unfold all_writes. rewrite (block_writes (4 * q) g tau).
  rewrite (block_in_stream_order B P (4 * q)); [done|done|done|lia|done].
Qed.

Lemma written_stream :
  iw_close (foldl (fun iw e => iw_write iw e.1 e.2) ∅ writes) 6
  = byte_at data <$> seq 0 (P * B * (3 * q)).
Proof.
  unfold iw_close.
  rewrite (sorted_le_seq (P * B)).
  2: { apply NoDup_elements. }
  2: { intros b. rewrite elem_of_elements, iw_fold_dom, dom_empty, <- written_blocks.
       split; [intros [Hb|Hb]; [by apply not_elem_of_empty in Hb|done]|by right]. }
  replace (P * B * (3 * q)) with ((P * B) * (3 * q)) by lia.
  pose proof (seq_bind_runs (byte_at data) (3 * q) 0 (P * B)) as Hruns.
  rewrite Nat.mul_0_l in Hruns. rewrite <- Hruns.
  apply Forall_bind_ext, Forall_forall. intros b Hb%elem_of_seq.
  rewrite written_block by lia.
  unfold group_of. rewrite groups_to_bits.
  replace (b * (4 * q) * 6) with (8 * (b * (3 * q))) by lia.
  replace (4 * q * 6) with (8 * (3 * q)) by lia.
  apply pack_bytes_run.
Qed.

End written_stream.

(** ** Encoding a page and decoding it again *)

Lemma decode_iter_no_deskew (E : Collaborators) (src_image : string)
    (dark force_preprocess auto_dewarp : bool) (w : World) :
  decode_iter E src_image dark force_preprocess false auto_dewarp w =
  match image_files w !! src_image with
  | None => (w, Raise (Failure "FileNotFoundError"))
  | Some color_img =>
      let img := if force_preprocess then _preprocess_for_decode E color_img else color_img in
      (w, decode_iter_cells (new_CimbDecoder E dark BITS_PER_SYMBOL BITS_PER_COLOR)
            img color_img
            (FloodDecodeOrder E (cell_positions E CELL_SPACING CELL_DIMENSIONS CELLS_OFFSET)
                              CELL_DIMENSIONS))
  end.
Proof.
  unfold decode_iter, decode_iter_open, Image_open, lift, mbind, py_bind, mret, py_ret.
  cbn [lookup_image].
  destruct (image_files w !! src_image) as [color_img|]; [|done].
  unfold decode_iter_images. cbn zeta.
  by destruct (decode_iter_cells _ _ _ _).
Qed.

Lemma keys_of_yielded {A C : Type} (G : nat → Z) (l : list (nat * A * C)) :
  ((fun e => (e.1.1, G e.1.1)) <$> l).*1 = l.*1.*1.
Proof. induction l as [|e l IH]; cbn; [done|]. by rewrite IH. Qed.

Lemma iw_close_empty (bits_per_op : nat) : iw_close ∅ bits_per_op = [].
Proof. unfold iw_close. by rewrite dom_empty_L, elements_empty. Qed.

Lemma write_all_decode_outstream (E : Collaborators) (outfile : string) (ecc : Z)
    (fountain : bool) (data : list byte) :
  ∃ out, write_all E (decode_outstream outfile ecc fountain) data = Ok (outfile, out).
Proof. unfold decode_outstream. destruct fountain, (truthy ecc); cbn; eauto. Qed.

Lemma bytes_read_page (q : nat) : bytes_read (2 * 155 * (4 * q)) 6 = 2 * 155 * (3 * q).
Proof.
  unfold bytes_read.
  destruct (divmod_digits (2 * 155 * (4 * q) * 6 + 7) 8 (2 * 155 * (3 * q)) 7) as [-> _]; lia.
Qed.

Lemma length_fit_to (n : nat) (data : list byte) : length (fit_to n data) = n.
Proof. unfold fit_to. rewrite length_app, length_take, length_replicate. lia. Qed.

Lemma fit_to_take (n : nat) (data : list byte) : fit_to n (take n data) = fit_to n data.
Proof.
  unfold fit_to. rewrite take_take, Nat.min_id, length_take. f_equal. f_equal. lia.
Qed.

Lemma fit_to_exact (n : nat) (data : list byte) : fit_to n data = data ↔ length data = n.
Proof.
  split.
  - intros Heq. by rewrite <- Heq, length_fit_to.
  - intros <-. unfold fit_to. by rewrite take_ge, Nat.sub_diag, app_nil_r.
Qed.

Section round_trip.
Context (E : Collaborators) (dark : bool) (q : nat) (data : list byte).

Local Abbreviation cells := (cell_positions E CELL_SPACING CELL_DIMENSIONS CELLS_OFFSET).
Local Abbreviation enc := (new_CimbEncoder E dark BITS_PER_SYMBOL BITS_PER_COLOR).
Local Abbreviation dec := (new_CimbDecoder E dark BITS_PER_SYMBOL BITS_PER_COLOR).
Local Abbreviation order := (FloodDecodeOrder E cells CELL_DIMENSIONS).
Local Abbreviation g := (group_of data 6).
Local Abbreviation tau := (cell_to_stream 155 (4 * q)).
Local Abbreviation page :=
  (encode_paste enc (_get_image_template E TOTAL_SIZE dark) (yielded_of cells 155 2 g)).

Context (Hcells : length cells = 2 * 155 * (4 * q)).
Context (Hnodup : NoDup cells) (Hapart : cells_apart cells) (Hinside : cells_inside cells).
Context (Henc : draws_tiles enc) (Hread : reads_clean_tiles enc dec).
Context (Hvisit : visits_cleanly order cells).

(** [encode] renders the groups of the first bytes of its stream. *)
Lemma encode_page (w : World) (src_data dst_image : string) (ecc : Z) (fountain : bool)
    (reader : nat → list byte) :
  open_reader E w (encode_instream src_data ecc fountain).1 = Ok reader →
  data = reader (2 * 155 * (3 * q)) →
  encode E src_data dst_image dark ecc fountain w
  = (store_image w (user_path dst_image) page, Ok tt).
Proof.
  intros Hreader Hdata. unfold encode, encode_iter, mbind, py_bind, Image_save.
  destruct (encode_instream src_data ecc fountain) as [rss read_size].
  cbn [fst] in Hreader. rewrite Hreader.
  change (Z.to_nat INTERLEAVE_BLOCKS) with 155.
  change (Z.to_nat INTERLEAVE_PARTITIONS) with 2.
  change (Z.to_nat BITS_PER_OP) with 6.
  rewrite (interleave_length 155 2 (4 * q)) by (done || lia).
  rewrite bytes_read_page, <- Hdata.
  do 3 f_equal. unfold yielded_of.
  apply imap_ext. intros k [x y] _. cbn beta iota.
  by rewrite bit_file_read_group.
Qed.

Lemma group_range (k : nat) : (0 <= g k < 2 ^ BITS_PER_OP)%Z.
Proof.
  pose proof (bits_to_Z_range (bit_at (bitstream data) <$> seq (k * 6) 6)) as Hr.
  by rewrite length_fmap, length_seq in Hr.
Qed.

Lemma page_pixels (i : nat) (x y a b : Z) :
  cells !! i = Some (x, y) →
  (0 <= a < CELL_SIZE)%Z → (0 <= b < CELL_SIZE)%Z →
  getpixel page (x + a) (y + b) = getpixel (ct_encode enc (g (tau i))) a b.
Proof.
  intros Hi Ha Hb.
  destruct (Hinside (x, y)) as (Hx0 & Hx1 & Hy0 & Hy1); [by eapply list_elem_of_lookup_2|].
  cbn [fst snd] in *.
  unfold getpixel, inside, width, height.
  rewrite size_encode_paste, size_get_image_template, Henc. cbn [fst snd].
  destruct (Z.leb_spec 0 (x + a)), (Z.ltb_spec (x + a) TOTAL_SIZE),
    (Z.leb_spec 0 (y + b)), (Z.ltb_spec (y + b) TOTAL_SIZE); try lia.
  destruct (Z.leb_spec 0 a), (Z.ltb_spec a CELL_SIZE),
    (Z.leb_spec 0 b), (Z.ltb_spec b CELL_SIZE); try lia.
  cbn [andb].
  rewrite (rendered_cell enc Henc 155 2 (4 * q)) with (i := i) (x := x) (y := y);
    try done; try lia.
  - f_equal; lia.
  - unfold covers. cbn [fst snd]. lia.
Qed.

(** Every cell of the page decodes to the group it was rendered from. *)
Lemma decode_page_cells :
  decode_iter_cells dec page page order
  = Ok ((fun e => (e.1.1, g (tau e.1.1))) <$> clean_run order).
Proof.
  apply (decode_iter_cells_clean dec page (fun i => g (tau i))).
  destruct Hvisit as [Hrun _].
  eapply Forall_impl; [exact Hrun|].
  intros [[i [x y]] drift] (Hi & Hx & Hy & Hhead). cbn [fst snd].
  apply (decode_cell_clean enc dec Hread); try done.
  - apply group_range.
  - intros a b Ha Hb. by apply page_pixels.
Qed.

(** [decode] hands to its stream the bytes the page was rendered from, cut
    or filled to the capacity of the page. *)
Lemma decode_page (w : World) (src_image outfile : string) (ecc : Z)
    (fountain auto_dewarp : bool) (out : list byte) :
  image_files w !! src_image = Some page →
  write_all E (decode_outstream outfile ecc fountain) (fit_to (2 * 155 * (3 * q)) data)
    = Ok (outfile, out) →
  decode E src_image outfile dark ecc fountain false false auto_dewarp w
  = store_data outfile out w.
Proof.
  intros Hpage Hout. unfold decode.
  change (Z.to_nat INTERLEAVE_BLOCKS) with 155.
  change (Z.to_nat INTERLEAVE_PARTITIONS) with 2.
  change (Z.to_nat BITS_PER_OP) with 6.
  destruct (interleave_reverse cells 155 2) as [lk block_size] eqn:Hrev.
  assert (block_size = 4 * q) as ->.
  { change block_size with (lk, block_size).2. rewrite <- Hrev.
    apply (interleave_reverse_block_size 155 2 (4 * q)); [lia|lia|done]. }
  assert (∀ i, i < 2 * 155 * (4 * q) → lk !! i = Some (tau i)) as Hlk.
  { intros i Hi. change lk with (lk, 4 * q).1. rewrite <- Hrev.
    apply (interleave_reverse_lookup 155 2 (4 * q)); [lia|lia|done|done]. }
  rewrite decode_iter_no_deskew, Hpage. cbn zeta. rewrite decode_page_cells.
  rewrite (sorted_items_seq (fun i => g (tau i)) (2 * 155 * (4 * q))).
  2: { apply Forall_fmap, Forall_forall. by intros [[i xy] drift] _. }
  2: { intros i. destruct Hvisit as [Hrun Hall]. rewrite <- Hcells.
       rewrite (keys_of_yielded (fun i => g (tau i))). split; [|apply Hall].
       rewrite <- list_fmap_compose.
       intros ([[j xy] drift] & -> & Hin)%list_elem_of_fmap.
       rewrite Forall_forall in Hrun. destruct (Hrun _ Hin) as [Hj _].
       by eapply lookup_lt_Some. }
  rewrite <- byte_at_seq in Hout.
  destruct (decide (q = 0)) as [->|Hq].
  - change (2 * 155 * (4 * 0)) with 0. change (2 * 155 * (3 * 0)) with 0 in Hout.
    cbn [seq fmap list_fmap decode_write] in *.
    unfold mbind, py_bind, lift. rewrite iw_close_empty. by rewrite Hout.
  - rewrite (decode_write_ok (4 * q) lk (fun i => g (tau i)) tau) by
      (try lia; apply Forall_forall; intros i Hi%elem_of_seq; apply Hlk; lia).
    fold (all_writes 155 2 (4 * q) g).
    rewrite (written_stream 155 2 q) by lia.
    unfold mbind, py_bind, lift. by rewrite Hout.
Qed.

End round_trip.

(** ** The page of the test doubles *)

Lemma grid_cell_elem (dim : nat) (keep : nat → nat → bool) (p : Z * Z) :
  p ∈ grid_cells dim keep →
  ∃ r c, r < dim ∧ c < dim ∧
    p = ((CELLS_OFFSET + Z.of_nat c * CELL_SPACING)%Z,
         (CELLS_OFFSET + Z.of_nat r * CELL_SPACING)%Z).
Proof.
  unfold grid_cells.
  intros (r & (c & Hp & Hc%elem_of_seq)%list_elem_of_bind & Hr%elem_of_seq)%list_elem_of_bind.
  exists r, c. repeat split; [lia|lia|].
  destruct (keep r c); [by apply list_elem_of_singleton in Hp|by apply elem_of_nil in Hp].
Qed.

Lemma grid_cells_NoDup (dim : nat) (keep : nat → nat → bool) : NoDup (grid_cells dim keep).
Proof.
  unfold grid_cells. apply NoDup_bind; [| |apply NoDup_seq].
  - intros r1 r2 p _ _ (c1 & Hp1 & _)%list_elem_of_bind (c2 & Hp2 & _)%list_elem_of_bind.
    destruct (keep r1 c1); [|by apply elem_of_nil in Hp1].
    destruct (keep r2 c2); [|by apply elem_of_nil in Hp2].
    apply list_elem_of_singleton in Hp1, Hp2. subst p.
    unfold CELL_SPACING, CELL_SIZE in Hp2. injection Hp2 as _ Hr. lia.
  - intros r _. apply NoDup_bind; [| |apply NoDup_seq].
    + intros c1 c2 p _ _ Hp1 Hp2.
      destruct (keep r c1); [|by apply elem_of_nil in Hp1].
      destruct (keep r c2); [|by apply elem_of_nil in Hp2].
      apply list_elem_of_singleton in Hp1, Hp2. subst p.
      unfold CELL_SPACING, CELL_SIZE in Hp2. injection Hp2 as Hc. lia.
    + intros c _. destruct (keep r c); [apply NoDup_singleton|apply NoDup_nil_2].
Qed.

Lemma grid_cells_apart (dim : nat) (keep : nat → nat → bool) :
  cells_apart (grid_cells dim keep).
Proof.
  intros p1 p2 (r1 & c1 & _ & _ & ->)%grid_cell_elem (r2 & c2 & _ & _ & ->)%grid_cell_elem Hne.
  unfold CELL_SPACING, CELL_SIZE, CELLS_OFFSET in *. cbn [fst snd].
  destruct (decide (c1 = c2)) as [->|Hc]; [|left; lia].
  destruct (decide (r1 = r2)) as [->|Hr]; [done|right; lia].
Qed.

Lemma grid_cells_inside (dim : nat) (keep : nat → nat → bool) :
  dim <= 112 → cells_inside (grid_cells dim keep).
Proof.
  intros Hdim p (r & c & Hr & Hc & ->)%grid_cell_elem.
  unfold CELL_SPACING, CELL_SIZE, CELLS_OFFSET, TOTAL_SIZE. cbn [fst snd]. lia.
Qed.

Lemma length_page_cells : length page_cells = 2 * 155 * (4 * 10).
Proof. vm_compute. reflexivity. Qed.

Lemma solid_draws_tiles : draws_tiles solid_encoder.
Proof. by intros bits. Qed.

Lemma solid_reads_clean_tiles : reads_clean_tiles solid_encoder solid_decoder.
Proof.
  intros bits symbol_patch color_patch Hbits _ Hsym _ Hcol.
  unfold solid_decoder, red_at. cbn [decode_symbol decode_color fst snd].
  rewrite (Hsym 0%Z 0%Z), (Hcol 0%Z 0%Z) by (unfold CELL_SIZE; lia).
  split; [done|].
  change (getpixel (ct_encode solid_encoder bits) 0 0) with (bits, bits, bits).
  change (getpixel (ct_encode solid_encoder bits) (0 + 1) (0 + 1)) with (bits, bits, bits).
  cbn beta iota.
  pose proof (Z.div_mod bits 16 ltac:(lia)). lia.
Qed.

Lemma raster_order_run (cells : list (Z * Z)) (i : nat) :
  clean_run (raster_order i cells) = imap (fun k xy => (i + k, xy, no_drift)) cells.
Proof.
  revert i. induction cells as [|xy cells IH]; intros i; [done|].
  cbn [raster_order clean_run imap]. rewrite IH. f_equal.
  - do 2 f_equal. lia.
  - apply imap_ext. intros k xy' _. cbn. do 2 f_equal. lia.
Qed.

Lemma raster_order_visits (cells : list (Z * Z)) :
  visits_cleanly (raster_order 0 cells) cells.
Proof.
  unfold visits_cleanly. rewrite raster_order_run. split.
  - apply Forall_lookup. intros k [[j xy] drift] Hk.
    rewrite list_lookup_imap in Hk.
    destruct (cells !! k) as [xy'|] eqn:Hc; [|done]. cbn in Hk. by simplify_eq.
  - intros i Hi. destruct (lookup_lt_is_Some_2 cells i Hi) as [xy Hxy].
    apply list_elem_of_fmap. exists (i, xy). split; [done|].
    apply list_elem_of_fmap. exists (i, xy, no_drift). split; [done|].
    apply list_elem_of_lookup. exists i. by rewrite list_lookup_imap, Hxy.
Qed.

(** ** The round trip *)

(** C1 (as the code has it).  On an unspoilt page decoded without deskew,
    [decode] after [encode] with the same palette, ecc and fountain flag
    leaves in the output file what the decoder's stream makes of the first
    [6 * cells / 8] bytes that the encoder's stream produced, filled with
    zero bytes to that length when the stream ended earlier: the page
    carries that many bytes whatever the length of the payload, since
    [encode] reads one group for every cell and [decode] writes every
    cell.  Without ecc and without the fountain layer both streams are the
    files themselves, and the output is the payload cut to that length or
    followed by zero bytes up to it; it is the payload exactly when the
    payload has that length.  Stated for cells that divide evenly into the
    interleave blocks with whole bytes in each block, tiles on the page
    that do not overlap, classifiers that read an unspoilt tile and a
    decode order that visits every cell. *)
Theorem decode_encode_padded (E : Collaborators) (w : World)
    (src_data image outfile : string) (dark : bool) (ecc : Z)
    (fountain auto_dewarp : bool) (payload : list byte) :
  let cells := cell_positions E CELL_SPACING CELL_DIMENSIONS CELLS_OFFSET in
  let enc := new_CimbEncoder E dark BITS_PER_SYMBOL BITS_PER_COLOR in
  let dec := new_CimbDecoder E dark BITS_PER_SYMBOL BITS_PER_COLOR in
  let capacity := 6 * length cells / 8 in
  data_files w !! src_data = Some payload →
  length cells `mod` (Z.to_nat INTERLEAVE_BLOCKS * Z.to_nat INTERLEAVE_PARTITIONS * 4) = 0 →
  NoDup cells → cells_apart cells → cells_inside cells →
  draws_tiles enc → reads_clean_tiles enc dec →
  visits_cleanly (FloodDecodeOrder E cells CELL_DIMENSIONS) cells →
  ∃ instream w1 w2 out,
    open_reader E w (encode_instream src_data ecc fountain).1 = Ok instream ∧
    encode E src_data image dark ecc fountain w = (w1, Ok tt) ∧
    decode E image outfile dark ecc fountain false false auto_dewarp w1 = (w2, Ok tt) ∧
    data_files w2 !! outfile = Some out ∧
    write_all E (decode_outstream outfile ecc fountain) (fit_to capacity (instream capacity))
      = Ok (outfile, out) ∧
    (ecc = 0%Z → fountain = false →
     out = take capacity payload ++ replicate (capacity - length payload) x00 ∧
     (out = payload ↔ length payload = capacity)).
Proof.
  intros cells enc dec capacity Hfile Hdiv Hnodup Hapart Hinside Henc Hread Hvisit.
  change (Z.to_nat INTERLEAVE_BLOCKS * Z.to_nat INTERLEAVE_PARTITIONS * 4) with 1240 in Hdiv.
  set (q := length cells / 1240).
  assert (length cells = 2 * 155 * (4 * q)) as Hcells.
  { pose proof (Nat.div_mod_eq (length cells) 1240). subst q. lia. }
  assert (capacity = 2 * 155 * (3 * q)) as Hcap.
  { subst capacity. rewrite Hcells.
    destruct (divmod_digits (6 * (2 * 155 * (4 * q))) 8 (2 * 155 * (3 * q)) 0)
      as [-> _]; lia. }
  destruct (open_reader_encode_instream E w src_data ecc fountain payload Hfile)
    as [instream Hinstream].
  destruct (write_all_decode_outstream E outfile ecc fountain
              (fit_to capacity (instream capacity))) as [out Hout].
  exists instream. eexists _, _. exists out.
  split; [done|]. split; [|split; [|split; [|split]]].
  - apply (encode_page E dark q (instream capacity)) with (reader := instream);
      try done. by rewrite Hcap.
  - apply (decode_page E dark q (instream capacity)); try done.
    + cbn [store_image image_files]. apply lookup_insert_eq.
    + by rewrite <- Hcap.
  - cbn [data_files]. apply lookup_insert_eq.
  - done.
  - intros -> ->.
    unfold encode_instream in Hinstream.
    cbn [truthy Z.eqb negb fst open_reader] in Hinstream.
    rewrite Hfile in Hinstream. injection Hinstream as <-.
    unfold decode_outstream in Hout. cbn [truthy Z.eqb negb write_all] in Hout.
    injection Hout as <-.
    rewrite fit_to_take. split; [done|]. apply fit_to_exact.
Qed.

Lemma decode_encode_padded_witness :
  ∃ instream w1 w2 out,
    open_reader page_collaborators (one_file_world "in.bin" sixteen_bytes)
                (encode_instream "in.bin" 0 false).1 = Ok instream ∧
    encode page_collaborators "in.bin" "page.png" true 0 false
           (one_file_world "in.bin" sixteen_bytes) = (w1, Ok tt) ∧
    decode page_collaborators "page.png" "out.bin" true 0 false false false true w1
      = (w2, Ok tt) ∧
    data_files w2 !! "out.bin" = Some out ∧
    write_all page_collaborators (decode_outstream "out.bin" 0 false)
              (fit_to (6 * length page_cells / 8) (instream (6 * length page_cells / 8)))
      = Ok ("out.bin", out) ∧
    (0%Z = 0%Z → false = false →
     out = take (6 * length page_cells / 8) sixteen_bytes
           ++ replicate (6 * length page_cells / 8 - length sixteen_bytes) x00 ∧
     (out = sixteen_bytes ↔ length sixteen_bytes = 6 * length page_cells / 8)).
Proof.
  apply (decode_encode_padded page_collaborators (one_file_world "in.bin" sixteen_bytes)
           "in.bin" "page.png" "out.bin" true 0 false true sixteen_bytes).
  - apply lookup_singleton_eq.
  - change (length (cell_positions page_collaborators CELL_SPACING CELL_DIMENSIONS CELLS_OFFSET))
      with (length page_cells).
    rewrite length_page_cells. reflexivity.
  - apply grid_cells_NoDup.
  - apply grid_cells_apart.
  - apply grid_cells_inside. lia.
  - apply solid_draws_tiles.
  - apply solid_reads_clean_tiles.
  - apply raster_order_visits.
Defined.

(** C1 (as the claim has it) fails: the sixteen bytes 0x00 .. 0x0F encoded
    with the dark palette and no ecc come back as 9300 bytes, the sixteen
    followed by padding. *)
Lemma decode_encode_not_identity :
  ∃ w1 w2,
    encode page_collaborators "in.bin" "page.png" true 0 false
           (one_file_world "in.bin" sixteen_bytes) = (w1, Ok tt) ∧
    decode page_collaborators "page.png" "out.bin" true 0 false false false true w1
      = (w2, Ok tt) ∧
    (∃ out, data_files w2 !! "out.bin" = Some out ∧ Z.of_nat (length out) = 9300%Z) ∧
    data_files w2 !! "out.bin" ≠ Some sixteen_bytes.
Proof.
  eexists _, _. split; [|split].
  - apply (encode_page page_collaborators true 10 (take (2 * 155 * (3 * 10)) sixteen_bytes))
      with (reader := fun n => take n sixteen_bytes).
    + apply length_page_cells.
    + cbn. by rewrite lookup_singleton_eq.
    + done.
  - apply (decode_page page_collaborators true 10 (take (2 * 155 * (3 * 10)) sixteen_bytes)).
    + apply length_page_cells.
    + apply grid_cells_NoDup.
    + apply grid_cells_apart.
    + apply grid_cells_inside. lia.
    + apply solid_draws_tiles.
    + apply solid_reads_clean_tiles.
    + apply raster_order_visits.
    + cbn [store_image image_files]. apply lookup_insert_eq.
    + reflexivity.
  - cbn [store_data store_image data_files fst]. rewrite lookup_insert_eq. split.
    + eexists. split; [reflexivity|]. rewrite length_fit_to. reflexivity.
    + intros Heq. apply (f_equal (fun o => length <$> o)) in Heq.
      cbn [fmap option_fmap option_map] in Heq.
      rewrite length_fit_to in Heq. discriminate.
Qed.

(** * Further properties *)

Local Open Scope Z_scope.

(** ** The squared distance of [kmeans.py] *)








(** ** The labels of [recompute_cluster_labels] *)

Lemma least_fold (d : Z) (l : list Z) :
  let m := foldl (fun least a => if a <? least then a else least) d l in
  m ∈ d :: l ∧ Forall (fun a => m <= a) (d :: l).
Proof.
  revert d. induction l as [|a l IH]; intros d; cbn [foldl]; cbn zeta.
  { split; [left|]. constructor; [lia|constructor]. }
  destruct (IH (if a <? d then a else d)) as [Hin Hall]. cbn zeta in Hin, Hall.
  apply Forall_cons in Hall as [Hhead Hall]. split.
  - apply elem_of_cons in Hin as [->|Hin].
    + destruct (Z.ltb_spec a d); [right; left|left].
    + right. by right.
  - destruct (Z.ltb_spec a d); (constructor; [lia|]); (constructor; [lia|done]).
Qed.

Lemma py_min_spec (l : list Z) (m : Z) :
  kmeans.py_min l = Ok m → m ∈ l ∧ Forall (fun a => m <= a) l.
Proof. destruct l as [|d l]; [done|]. intros [= <-]. apply least_fold. Qed.

Lemma index_spec (v : Z) (l : list Z) :
  v ∈ l →
  ∃ i, kmeans.index v l = Ok i ∧ l !! i = Some v ∧
       ∀ j a, (j < i)%nat → l !! j = Some a → a ≠ v.
Proof.
  induction l as [|d l IH]; intros Hin; [by apply elem_of_nil in Hin|].
  cbn [kmeans.index]. destruct (Z.eqb_spec d v) as [->|Hne].
  - exists O. split; [done|]. split; [done|]. intros j a Hj. lia.
  - apply elem_of_cons in Hin as [->|Hin]; [done|].
    destruct (IH Hin) as (i & -> & Hi & Hfirst). exists (S i).
    split; [done|]. split; [done|]. intros [|j] a Hj; cbn.
    + by intros [= <-].
    + apply Hfirst. lia.
Qed.

(** The label of one point: the first of the nearest centres. *)
Lemma label_nearest_first (point : list Z) (centers : list (list Z)) :
  centers ≠ [] →
  ∃ label center,
    (least ← kmeans.py_min ((fun center => kmeans.dist point center) <$> centers);
     kmeans.index least ((fun center => kmeans.dist point center) <$> centers)) = Ok label ∧
    centers !! label = Some center ∧
    (∀ j c, centers !! j = Some c → kmeans.dist point center <= kmeans.dist point c) ∧
    (∀ j c, (j < label)%nat → centers !! j = Some c →
            kmeans.dist point center < kmeans.dist point c).
Proof.
  intros Hne. set (distances := (fun center => kmeans.dist point center) <$> centers).
  destruct (kmeans.py_min distances) as [m|e] eqn:Hmin;
    [|destruct centers; [done|discriminate]].
  destruct (py_min_spec _ _ Hmin) as [Hin Hleast].
  destruct (index_spec m distances Hin) as (label & Hindex & Hlabel & Hfirst).
  unfold distances in Hlabel. rewrite list_lookup_fmap in Hlabel.
  destruct (centers !! label) as [center|] eqn:Hcenter; [|done].
  injection Hlabel as Hm. exists label, center. split; [done|]. split; [done|].
  assert (∀ j c, centers !! j = Some c → distances !! j = Some (kmeans.dist point c)) as Hat.
  { intros j c Hj. unfold distances. by rewrite list_lookup_fmap, Hj. }
  split.
  - intros j c Hj. rewrite Forall_forall in Hleast. rewrite Hm. apply Hleast.
    eapply list_elem_of_lookup_2. by apply Hat.
  - intros j c Hlt Hj. pose proof (Hfirst j _ Hlt (Hat j c Hj)) as Hdiff.
    rewrite Forall_forall in Hleast.
    assert (m <= kmeans.dist point c); [|lia].
    apply Hleast. eapply list_elem_of_lookup_2. by apply Hat.
Qed.

(** Every point gets the first of its nearest centres. *)
Lemma recompute_labels_spec (data centers : list (list Z)) :
  centers ≠ [] →
  ∃ labels,
    kmeans.recompute_cluster_labels data centers = Ok labels ∧
    Forall2 (fun point label =>
               ∃ center, centers !! label = Some center ∧
                 (∀ j c, centers !! j = Some c →
                         kmeans.dist point center <= kmeans.dist point c) ∧
                 (∀ j c, (j < label)%nat → centers !! j = Some c →
                         kmeans.dist point center < kmeans.dist point c))
            data labels.
Proof.
  intros Hne. induction data as [|point data (labels & IH & Hall)].
  { exists []. split; [done|constructor]. }
  destruct (label_nearest_first point centers Hne) as (label & center & Hlabel & Hspec).
  exists (label :: labels). split.
  - cbn [kmeans.recompute_cluster_labels]. cbn zeta.
    destruct (kmeans.py_min _) as [m|e]; [|done]. cbn in Hlabel |- *.
    rewrite Hlabel. cbn. by rewrite IH.
  - constructor; [by exists center|done].
Qed.

(** X3.  [recompute_cluster_labels] returns one label for each point, each
    the position of a centre, whenever there is a centre or there is no
    point; with points but no centre it raises the [ValueError] of [min]
    on an empty list. *)
Theorem recompute_labels_total (data centers : list (list Z)) :
  (centers ≠ [] ∨ data = [] →
   ∃ labels, kmeans.recompute_cluster_labels data centers = Ok labels ∧
             length labels = length data ∧
             Forall (fun label => (label < length centers)%nat) labels) ∧
  (centers = [] → data ≠ [] →
   kmeans.recompute_cluster_labels data centers = Raise (Failure "ValueError")).
Proof.
  split.
  - intros [Hne| ->]; [|exists []; by repeat split].
    destruct (recompute_labels_spec data centers Hne) as (labels & Hret & Hall).
    exists labels. split; [done|]. split; [symmetry; by eapply Forall2_length|].
    clear Hret. induction Hall as [|point label data labels (center & Hc & _) _ IH];
      constructor; [|done].
    by eapply lookup_lt_Some.
  - intros -> Hdata. by destruct data.
Qed.

(** X4.  The label of a point names a centre nearest to it, and of several
    nearest centres the first: no centre is closer than the labelled one
    and every centre before it is strictly farther. *)
Theorem recompute_labels_nearest_first (data centers : list (list Z))
    (labels : list nat) :
  kmeans.recompute_cluster_labels data centers = Ok labels →
  ∀ i point label, data !! i = Some point → labels !! i = Some label →
    ∃ center, centers !! label = Some center ∧
      (∀ j c, centers !! j = Some c → kmeans.dist point center <= kmeans.dist point c) ∧
      (∀ j c, (j < label)%nat → centers !! j = Some c →
              kmeans.dist point center < kmeans.dist point c).
Proof.
  intros Hret i point label Hpoint Hlabel.
  destruct centers as [|c0 centers]; [destruct data; [done|discriminate]|].
  destruct (recompute_labels_spec data (c0 :: centers)) as (labels' & Hret' & Hall); [done|].
  assert (labels' = labels) as -> by congruence.
  by apply (Forall2_lookup_lr _ _ _ i point label Hall).
Qed.

Lemma recompute_labels_nearest_first_witness :
  ∃ center, two_centers !! 0%nat = Some center ∧
    (∀ j c, two_centers !! j = Some c →
            kmeans.dist [128; 128; 128] center <= kmeans.dist [128; 128; 128] c) ∧
    (∀ j c, (j < 0)%nat → two_centers !! j = Some c →
            kmeans.dist [128; 128; 128] center < kmeans.dist [128; 128; 128] c).
Proof.
  apply (recompute_labels_nearest_first three_points two_centers [1; 0; 0]%nat eq_refl 2%nat);
    reflexivity.
Defined.

(** The labels on three colours: black is the second centre, the red
    (250, 10, 10) and the grey (128, 128, 128) are nearest to the first.  A
    grey as far from one centre as from the other gets the first. *)
Example recompute_labels_three_points :
  kmeans.recompute_cluster_labels three_points two_centers = Ok [1; 0; 0]%nat ∧
  kmeans.recompute_cluster_labels [[128; 128; 128]] [[255; 0; 1]; [1; 0; 255]] = Ok [0%nat].
Proof. split; reflexivity. Qed.

Lemma inertia_cons (point : list Z) (data centers : list (list Z)) (label : nat)
    (labels : list nat) :
  inertia (point :: data) centers (label :: labels)
  = default 0 (kmeans.dist point <$> centers !! label) + inertia data centers labels.
Proof. done. Qed.

(** X5.  The labels minimise the sum of the squared distances of the
    points to their centres: no other choice of one centre for each point
    has a smaller sum. *)
Theorem recompute_labels_least_inertia (data centers : list (list Z))
    (labels : list nat) :
  kmeans.recompute_cluster_labels data centers = Ok labels →
  ∀ other, length other = length data →
    Forall (fun label => (label < length centers)%nat) other →
    inertia data centers labels <= inertia data centers other.
Proof.
  intros Hret other Hlen Hvalid.
  destruct centers as [|c0 centers].
  { destruct data; [|discriminate]. injection Hret as <-. by destruct other. }
  destruct (recompute_labels_spec data (c0 :: centers)) as (labels' & Hret' & Hall); [done|].
  assert (labels' = labels) as -> by congruence. clear Hret Hret'.
  revert other Hlen Hvalid.
  induction Hall as [|point label data labels (center & Hc & Hnear & _) _ IH];
    intros [|l other] Hlen Hvalid; try done.
  apply Forall_cons in Hvalid as [Hl Hvalid].
  rewrite !inertia_cons. specialize (IH other). cbn [length] in Hlen.
  destruct (lookup_lt_is_Some_2 (c0 :: centers) l Hl) as [c Hlc].
  rewrite Hc, Hlc. cbn [fmap option_fmap option_map from_option id].
  specialize (Hnear l c Hlc).
  assert (inertia data (c0 :: centers) labels <= inertia data (c0 :: centers) other);
    [apply IH; [lia|done]|lia].
Qed.

Lemma recompute_labels_least_inertia_witness :
  kmeans.recompute_cluster_labels three_points two_centers = Ok [1; 0; 0]%nat ∧
  inertia three_points two_centers [1; 0; 0]%nat
  <= inertia three_points two_centers [0; 1; 1]%nat.
Proof.
  split; [reflexivity|].
  apply (recompute_labels_least_inertia three_points two_centers [1; 0; 0]%nat eq_refl);
    [reflexivity|].
  repeat constructor.
Defined.

(** ** Which offset [_decode_cell] settles on *)

Section decode_cell_choice.
Context (ct : CimbDecoder) (img color_img : Image) (x y : Z) (drift : Drift).

Local Abbreviation dist := (symbol_distance ct img x y drift).
Local Abbreviation sbits := (symbol_bits ct img x y drift).
Local Abbreviation search := (_decode_cell_search ct img x y drift).

(** Offsets that do not end the search leave it with the distance it had
    or with the distance of one of them. *)
Lemma search_skip (init todo : list (Z * Z)) (bd : Z) (best : option (Z * Z * Z)) :
  Forall (fun q => 8 <= dist q) init →
  ∃ bd' best', search (init ++ todo) bd best = search todo bd' best' ∧
               (bd' = bd ∨ ∃ q, q ∈ init ∧ bd' = dist q).
Proof.
  revert bd best. induction init as [|[dx dy] init IH]; intros bd best Hfar.
  { exists bd, best. split; [done|by left]. }
  apply Forall_cons in Hfar as [Hq Hfar].
  rewrite <- app_comm_cons, search_step. cbn zeta.
  destruct (Z.ltb_spec (dist (dx, dy)) 8) as [?|_]; [lia|].
  destruct (IH (Z.min (dist (dx, dy)) bd)
               (if dist (dx, dy) =? Z.min (dist (dx, dy)) bd
                then Some (sbits (dx, dy), dx, dy) else best) Hfar)
    as (bd' & best' & -> & Hbd).
  exists bd', best'. split; [done|].
  destruct Hbd as [->|(q & Hin & ->)].
  - destruct (Z.min_spec (dist (dx, dy)) bd) as [[_ ->]|[_ ->]]; [|by left].
    right. exists (dx, dy). split; [left|done].
  - right. exists q. split; [by right|done].
Qed.

(** An offset no farther than the best so far takes its place. *)
Lemma search_hit (p : Z * Z) (todo : list (Z * Z)) (bd : Z) (best : option (Z * Z * Z)) :
  dist p <= bd →
  search (p :: todo) bd best =
  if dist p <? 8 then (dist p, Some (sbits p, p.1, p.2))
  else search todo (dist p) (Some (sbits p, p.1, p.2)).
Proof.
  intros Hle. destruct p as [dx dy]. rewrite search_step. cbn zeta. cbn [fst snd].
  rewrite Z.min_l by done. by rewrite Z.eqb_refl.
Qed.

(** Offsets farther than the best so far change nothing. *)
Lemma search_farther (post : list (Z * Z)) (bd : Z) (best : option (Z * Z * Z)) :
  8 <= bd → Forall (fun q => bd < dist q) post → search post bd best = (bd, best).
Proof.
  intros Hbd. induction post as [|[dx dy] post IH]; intros Hfar; [done|].
  apply Forall_cons in Hfar as [Hq Hfar]. rewrite search_step. cbn zeta.
  rewrite Z.min_r by lia.
  destruct (Z.eqb_spec (dist (dx, dy)) bd) as [?|_]; [lia|].
  destruct (Z.ltb_spec (dist (dx, dy)) 8) as [?|_]; [lia|]. by apply IH.
Qed.

(** What [_decode_cell] returns once the search has ended on [w]. *)
Lemma decode_cell_of_search (w : Z * Z) :
  search (pairs drift) 1000 None = (dist w, Some (sbits w, w.1, w.2)) →
  _decode_cell ct img color_img x y drift =
    Ok (sbits w + color_result ct color_img x y drift w, w.1, w.2, dist w).
Proof. intros Hsearch. unfold _decode_cell. by rewrite Hsearch. Qed.

End decode_cell_choice.

(** X6.  The first offset of [drift.pairs] closer than 8 is the one
    [_decode_cell] returns, whatever follows it: the offsets after it are
    not looked at, even where one of them is closer. *)
Theorem decode_cell_first_close_offset (ct : CimbDecoder) (img color_img : Image)
    (x y : Z) (drift : Drift) (init rest : list (Z * Z)) (p : Z * Z) :
  pairs drift = init ++ p :: rest →
  Forall (fun q => 8 <= symbol_distance ct img x y drift q) init →
  symbol_distance ct img x y drift p < 8 →
  _decode_cell ct img color_img x y drift =
    Ok (symbol_bits ct img x y drift p + color_result ct color_img x y drift p,
        p.1, p.2, symbol_distance ct img x y drift p).
Proof.
  intros Hpairs Hinit Hp. apply decode_cell_of_search. rewrite Hpairs.
  destruct (search_skip ct img x y drift init (p :: rest) 1000 None Hinit)
    as (bd & best & -> & Hbd).
  rewrite search_hit.
  - by destruct (Z.ltb_spec (symbol_distance ct img x y drift p) 8) as [_|?]; [|lia].
  - destruct Hbd as [->|(q & Hin & ->)]; [lia|].
    rewrite Forall_forall in Hinit. specialize (Hinit q Hin). lia.
Qed.

Lemma decode_cell_first_close_offset_witness :
  _decode_cell pixel_decoder coordinate_page coordinate_page 8 10 early_pairs =
    Ok (symbol_bits pixel_decoder coordinate_page 8 10 early_pairs (0, -3)
        + color_result pixel_decoder coordinate_page 8 10 early_pairs (0, -3),
        0, -3, symbol_distance pixel_decoder coordinate_page 8 10 early_pairs (0, -3)).
Proof.
  apply (decode_cell_first_close_offset pixel_decoder coordinate_page coordinate_page 8 10
           early_pairs [(0, 0)] [(0, -9)] (0, -3)).
  - reflexivity.
  - repeat constructor. vm_compute. discriminate.
  - reflexivity.
Defined.

(** On the page that shows coordinates the three offsets are at 10, 7 and
    1: the search ends on the second and the third, the closest, is not
    returned. *)
Example decode_cell_early_pairs :
  _decode_cell pixel_decoder coordinate_page coordinate_page 8 10 early_pairs
    = Ok (8 + 9, 0, -3, 7) ∧
  symbol_distance pixel_decoder coordinate_page 8 10 early_pairs (0, -9) = 1.
Proof. split; reflexivity. Qed.

(** X7.  Among offsets at the same least distance the last one tried
    wins.  An offset [w] at most 1000 away is the one [_decode_cell]
    returns when every offset before it is at least as far and not closer
    than 8, and every offset after it is strictly farther. *)
Theorem decode_cell_last_of_equals (ct : CimbDecoder) (img color_img : Image)
    (x y : Z) (drift : Drift) (pre post : list (Z * Z)) (w : Z * Z) :
  pairs drift = pre ++ w :: post →
  symbol_distance ct img x y drift w <= 1000 →
  Forall (fun q => 8 <= symbol_distance ct img x y drift q ∧
                   symbol_distance ct img x y drift w <= symbol_distance ct img x y drift q)
         pre →
  Forall (fun q => symbol_distance ct img x y drift w < symbol_distance ct img x y drift q)
         post →
  _decode_cell ct img color_img x y drift =
    Ok (symbol_bits ct img x y drift w + color_result ct color_img x y drift w,
        w.1, w.2, symbol_distance ct img x y drift w).
Proof.
  intros Hpairs Hw Hpre Hpost. apply decode_cell_of_search. rewrite Hpairs.
  destruct (search_skip ct img x y drift pre (w :: post) 1000 None)
    as (bd & best & -> & Hbd).
  { eapply Forall_impl; [exact Hpre|]. cbn. intros q [? _]. done. }
  rewrite search_hit.
  - destruct (Z.ltb_spec (symbol_distance ct img x y drift w) 8) as [?|Hfar]; [done|].
    by apply search_farther.
  - destruct Hbd as [->|(q & Hin & ->)]; [done|].
    rewrite Forall_forall in Hpre. by destruct (Hpre q Hin).
Qed.

Lemma decode_cell_last_of_equals_witness :
  _decode_cell pixel_decoder coordinate_page coordinate_page 8 10 tied_pairs =
    Ok (symbol_bits pixel_decoder coordinate_page 8 10 tied_pairs (-1, -1)
        + color_result pixel_decoder coordinate_page 8 10 tied_pairs (-1, -1),
        -1, -1, symbol_distance pixel_decoder coordinate_page 8 10 tied_pairs (-1, -1)).
Proof.
  apply (decode_cell_last_of_equals pixel_decoder coordinate_page coordinate_page 8 10
           tied_pairs [(0, 0); (1, -1)] [] (-1, -1)).
  - reflexivity.
  - vm_compute. discriminate.
  - repeat constructor; vm_compute; discriminate.
  - constructor.
Defined.

(** There the offsets are at 10, 9 and 9: the third is returned, not the
    second. *)
Example decode_cell_tied_pairs :
  _decode_cell pixel_decoder coordinate_page coordinate_page 8 10 tied_pairs
    = Ok (7 + 8, -1, -1, 9) ∧
  symbol_distance pixel_decoder coordinate_page 8 10 tied_pairs (1, -1) = 9.
Proof. split; reflexivity. Qed.

(** ** What [decode_iter] and [decode] leave behind *)

(** X8.  Without deskew [decode_iter] leaves the world as it found it,
    whether it returns or raises: no temporary directory is made and no
    file is written.  It raises [FileNotFoundError] when the image file is
    not there; otherwise it decodes from the file itself, and the symbol
    classifier sees the sharpened image exactly when [force_preprocess] is
    set: the size of the image plays no part. *)
Theorem decode_iter_without_deskew (E : Collaborators) (src_image : string)
    (dark force_preprocess auto_dewarp : bool) (w : World) :
  (decode_iter E src_image dark force_preprocess false auto_dewarp w).1 = w ∧
  (image_files w !! src_image = None →
   (decode_iter E src_image dark force_preprocess false auto_dewarp w).2
     = Raise (Failure "FileNotFoundError")) ∧
  (∀ color_img, image_files w !! src_image = Some color_img →
   (decode_iter E src_image dark force_preprocess false auto_dewarp w).2
     = decode_iter_cells (new_CimbDecoder E dark BITS_PER_SYMBOL BITS_PER_COLOR)
         (if force_preprocess then _preprocess_for_decode E color_img else color_img)
         color_img
         (FloodDecodeOrder E (cell_positions E CELL_SPACING CELL_DIMENSIONS CELLS_OFFSET)
                           CELL_DIMENSIONS)).
Proof.
  rewrite decode_iter_no_deskew.
  destruct (image_files w !! src_image) as [color_img|];
    (split; [done|]); (split; [done|]).
  - by intros ? [= <-].
  - done.
Qed.

(** [decode_iter] writes no data file and no image file of the caller's. *)
Lemma decode_iter_keeps_files (E : Collaborators) (src_image : string)
    (dark force_preprocess deskew auto_dewarp : bool) (w : World) :
  data_files (decode_iter E src_image dark force_preprocess deskew auto_dewarp w).1
    = data_files w ∧
  image_files (decode_iter E src_image dark force_preprocess deskew auto_dewarp w).1
    = image_files w.
Proof.
  destruct deskew.
  - rewrite decode_iter_deskew, decode_iter_open_deskew. cbn zeta.
    destruct (image_files w !! src_image) as [src|]; [|done].
    destruct (deskewer E src dark auto_dewarp) as [[dims warped]|e]; [|done].
    by destruct (decode_iter_cells _ _ _ _).
  - rewrite decode_iter_no_deskew. by destruct (image_files w !! src_image).
Qed.

(** [decode], by what [decode_iter] gives: the stream is closed over what
    was written, on a return as on an exception. *)
Lemma decode_by_cases (E : Collaborators) (src_image outfile : string)
    (dark : bool) (ecc : Z) (fountain force_preprocess deskew auto_dewarp : bool)
    (w : World) :
  ∃ out,
    decode E src_image outfile dark ecc fountain force_preprocess deskew auto_dewarp w
    = ((store_data outfile out
          (decode_iter E src_image dark force_preprocess deskew auto_dewarp w).1).1,
       (decode E src_image outfile dark ecc fountain force_preprocess deskew auto_dewarp w).2) ∧
    (∀ e, (decode_iter E src_image dark force_preprocess deskew auto_dewarp w).2 = Raise e →
          (decode E src_image outfile dark ecc fountain force_preprocess deskew auto_dewarp w).2
            = Raise e ∧
          write_all E (decode_outstream outfile ecc fountain) [] = Ok (outfile, out)).
Proof.
  unfold decode.
  destruct (interleave_reverse _ _ _) as [lk block_size].
  destruct (decode_iter E src_image dark force_preprocess deskew auto_dewarp w)
    as [w' [yielded|e]]; cbn [fst snd].
  - destruct (decode_write lk block_size _ ∅) as [iw [e|]];
      destruct (write_all_decode_outstream E outfile ecc fountain
                  (iw_close iw (Z.to_nat BITS_PER_OP))) as [out Hout];
      exists out; unfold mbind, py_bind, lift; rewrite Hout; cbn; split; done.
  - destruct (write_all_decode_outstream E outfile ecc fountain
                (iw_close ∅ (Z.to_nat BITS_PER_OP))) as [out Hout].
    exists out. unfold mbind, py_bind, lift. rewrite Hout. cbn. split; [done|].
    intros ? [= <-]. split; [done|]. by rewrite iw_close_empty in Hout.
Qed.

(** X9.  [decode] changes no file but [outfile], also when it raises:
    every image file and every data file of another name is as it was.
    Without deskew it leaves no trace among the temporary directories
    either. *)
Theorem decode_changes_only_outfile (E : Collaborators) (src_image outfile : string)
    (dark : bool) (ecc : Z) (fountain force_preprocess deskew auto_dewarp : bool)
    (w : World) :
  let w2 :=
    (decode E src_image outfile dark ecc fountain force_preprocess deskew auto_dewarp w).1 in
  (∀ name, name ≠ outfile →
     image_files w2 !! name = image_files w !! name ∧
     data_files w2 !! name = data_files w !! name) ∧
  (deskew = false → tempdirs w2 = tempdirs w ∧ next_tempdir w2 = next_tempdir w).
Proof.
  cbn zeta.
  destruct (decode_by_cases E src_image outfile dark ecc fountain force_preprocess
              deskew auto_dewarp w) as (out & -> & _).
  destruct (decode_iter_keeps_files E src_image dark force_preprocess deskew auto_dewarp w)
    as [Hdata Himages].
  cbn [fst store_data image_files data_files tempdirs next_tempdir].
  split.
  - intros name Hname. by rewrite lookup_insert_ne, Hdata, Himages.
  - intros ->. by rewrite decode_iter_no_deskew; destruct (image_files w !! src_image).
Qed.

(** X10.  When [decode_iter] raises (the image is missing, the deskewer
    fails, or a cell has no offset within 1000) [decode] raises the same
    exception and nothing that was decoded reaches the output: the stream
    is closed over no bytes.  With no ecc and no fountain stage [outfile],
    a file other than the image, is then an empty file, whatever it held
    before. *)
Theorem decode_failure_empties_outfile (E : Collaborators) (src_image outfile : string)
    (dark : bool) (ecc : Z) (fountain force_preprocess deskew auto_dewarp : bool)
    (w w' : World) (e : PyError) :
  outfile ≠ src_image →
  decode_iter E src_image dark force_preprocess deskew auto_dewarp w = (w', Raise e) →
  ∃ out,
    write_all E (decode_outstream outfile ecc fountain) [] = Ok (outfile, out) ∧
    decode E src_image outfile dark ecc fountain force_preprocess deskew auto_dewarp w
      = ((store_data outfile out w').1, Raise e) ∧
    (ecc = 0 → fountain = false →
     data_files (store_data outfile out w').1 !! outfile = Some []).
Proof.
  intros _ Hiter.
  destruct (decode_by_cases E src_image outfile dark ecc fountain force_preprocess
              deskew auto_dewarp w) as (out & Hdecode & Hraise).
  rewrite Hiter in Hdecode, Hraise. cbn [fst snd] in Hdecode, Hraise.
  destruct (Hraise e eq_refl) as [Hresult Hout].
  exists out. split; [done|]. split.
  - rewrite Hdecode. by rewrite Hresult.
  - intros -> ->. cbn in Hout. injection Hout as <-.
    cbn. apply lookup_insert_eq.
Qed.

Lemma decode_failure_empties_outfile_witness :
  ∃ out,
    write_all (test_collaborators deskewer_canonical far_decoder
                 (mkCimbEncoder (fun _ => blank_page)) [(8, 8)] one_cell_order)
              (decode_outstream "out.bin" 0 false) [] = Ok ("out.bin", out) ∧
    decode (test_collaborators deskewer_canonical far_decoder
              (mkCimbEncoder (fun _ => blank_page)) [(8, 8)] one_cell_order)
           "page.png" "out.bin" true 0 false false false true
           (page_and_old_output "page.png" blank_page "out.bin" [x01; x02])
      = ((store_data "out.bin" out
            (page_and_old_output "page.png" blank_page "out.bin" [x01; x02])).1,
         Raise (UnboundLocalError "best_dx")) ∧
    (0 = 0 → false = false →
     data_files (store_data "out.bin" out
                   (page_and_old_output "page.png" blank_page "out.bin" [x01; x02])).1
       !! "out.bin" = Some []).
Proof.
  apply decode_failure_empties_outfile; [done|].
  rewrite decode_iter_no_deskew. cbn. rewrite lookup_singleton_eq. reflexivity.
Defined.

(** ** The order in which [decode] writes *)

(** What a dict built by assignments holds: for each key the value of the
    last assignment to it. *)
Lemma dict_of_lookup (yielded : list (nat * Z)) (i : nat) (bits : Z) :
  dict_of yielded !! i = Some bits ↔
  ∃ pre post, yielded = pre ++ (i, bits) :: post ∧ i ∉ post.*1.
Proof.
  unfold dict_of. induction yielded as [|[j b] yielded IH] using rev_ind.
  { cbn. rewrite lookup_empty. split; [done|].
    intros (pre & post & Heq & _). by destruct pre. }
  rewrite foldl_app. cbn [foldl].
  destruct (decide (i = j)) as [->|Hne].
  - rewrite lookup_insert_eq. split.
    + intros [= ->]. exists yielded, []. split; [done|]. apply not_elem_of_nil.
    + intros (pre & post & Heq & Hlast).
      destruct post as [|last post _] using rev_ind.
      * apply app_inj_tail in Heq as [_ [= ->]]. done.
      * rewrite app_comm_cons, app_assoc in Heq.
        apply app_inj_tail in Heq as [_ <-].
        contradict Hlast. rewrite fmap_app. apply elem_of_app. right. left.
  - rewrite lookup_insert_ne by done. rewrite IH. split.
    + intros (pre & post & -> & Hlast). exists pre, (post ++ [(j, b)]).
      split; [by rewrite <- app_assoc|].
      rewrite fmap_app. intros [?|Hj%list_elem_of_singleton]%elem_of_app; done.
    + intros (pre & post & Heq & Hlast).
      destruct post as [|last post _] using rev_ind.
      * apply app_inj_tail in Heq as [_ [= ? _]]. done.
      * rewrite app_comm_cons, app_assoc in Heq.
        apply app_inj_tail in Heq as [-> <-].
        exists pre, post. split; [done|].
        contradict Hlast. rewrite fmap_app. apply elem_of_app. by left.
Qed.

(** Items in ascending order without a repeated index are in strictly
    ascending order of their indices. *)
Lemma sorted_items_strict (l : list (nat * Z)) :
  StronglySorted items_le l → NoDup l.*1 →
  StronglySorted (fun a b => (a.1 < b.1)%nat) l.
Proof.
  induction 1 as [|a l _ IH Hall]; intros Hnodup; constructor.
  - apply IH. cbn [fmap list_fmap] in Hnodup. by apply NoDup_cons in Hnodup as [_ ?].
  - cbn [fmap list_fmap] in Hnodup. apply NoDup_cons in Hnodup as [Hfresh _].
    apply Forall_forall. intros c Hc. rewrite Forall_forall in Hall.
    destruct (Hall c Hc) as [?|[Heq _]]; [done|].
    contradict Hfresh. rewrite Heq. by apply list_elem_of_fmap_2.
Qed.

(** X11.  [decode] writes every decoded index once and in ascending order,
    whatever order [decode_iter] yielded the cells in; where an index was
    yielded more than once, the bits of its last yield are the ones
    written. *)
Theorem decode_items_sorted_last_wins (yielded : list (nat * Z)) :
  StronglySorted (fun a b => (a.1 < b.1)%nat) (decode_items yielded) ∧
  ∀ i bits, (i, bits) ∈ decode_items yielded ↔
            ∃ pre post, yielded = pre ++ (i, bits) :: post ∧ i ∉ post.*1.
Proof.
  assert (decode_items yielded ≡ₚ map_to_list (dict_of yielded)) as Hperm
    by apply merge_sort_Permutation.
  split.
  - apply sorted_items_strict.
    + apply Sorted_StronglySorted; [apply _|]. apply Sorted_merge_sort. apply _.
    + rewrite Hperm. apply NoDup_fst_map_to_list.
  - intros i bits. rewrite Hperm, elem_of_map_to_list. apply dict_of_lookup.
Qed.

(** On three yields, two of them of index 1: index 0 comes first although
    it was yielded last, and index 1 carries the bits of its second
    yield. *)
Example decode_items_three_yields :
  decode_items [(1%nat, 5); (1%nat, 9); (0%nat, 7)] = [(0%nat, 7); (1%nat, 9)].
Proof. reflexivity. Qed.

(** The items [decode] hands to its writing loop are these. *)
Lemma decode_writes_items (E : Collaborators) (src_image outfile : string)
    (dark : bool) (ecc : Z) (fountain force_preprocess deskew auto_dewarp : bool)
    (w w' : World) (yielded : list (nat * Z)) (lk : gmap nat nat) (block_size : nat)
    (iw : gmap nat (list Z)) :
  interleave_reverse (cell_positions E CELL_SPACING CELL_DIMENSIONS CELLS_OFFSET)
    (Z.to_nat INTERLEAVE_BLOCKS) (Z.to_nat INTERLEAVE_PARTITIONS) = (lk, block_size) →
  decode_iter E src_image dark force_preprocess deskew auto_dewarp w = (w', Ok yielded) →
  decode_write lk block_size (decode_items yielded) ∅ = (iw, None) →
  ∃ out,
    write_all E (decode_outstream outfile ecc fountain) (iw_close iw (Z.to_nat BITS_PER_OP))
      = Ok (outfile, out) ∧
    decode E src_image outfile dark ecc fountain force_preprocess deskew auto_dewarp w
      = store_data outfile out w'.
Proof.
  intros Hrev Hiter Hwrite. unfold decode. rewrite Hrev, Hiter.
  fold (decode_items yielded). rewrite Hwrite.
  destruct (write_all_decode_outstream E outfile ecc fountain
              (iw_close iw (Z.to_nat BITS_PER_OP))) as [out Hout].
  exists out. split; [done|]. unfold mbind, py_bind, lift. by rewrite Hout.
Qed.

(** ** What [encode] leaves behind *)

(** X12.  When the source file is not there, [encode] without a fountain
    stage raises [FileNotFoundError] and leaves the world as it was: no
    image is saved, and an image already stored at [dst_image] stays. *)
Theorem encode_missing_source (E : Collaborators) (w : World)
    (src_data dst_image : string) (dark : bool) (ecc : Z) :
  data_files w !! src_data = None →
  encode E src_data dst_image dark ecc false w = (w, Raise (Failure "FileNotFoundError")).
Proof.
  intros Hfile. unfold encode, encode_iter, encode_instream, mbind, py_bind.
  destruct (truthy ecc); cbn; by rewrite Hfile.
Qed.

Lemma encode_missing_source_witness :
  encode page_collaborators "in.bin" "page.png" true 30 false
         (one_page_world "page.png" blank_page)
  = (one_page_world "page.png" blank_page, Raise (Failure "FileNotFoundError")).
Proof. apply encode_missing_source. apply lookup_empty. Defined.

(** The positions [encode_iter] yields are positions of cells. *)
Lemma encode_iter_positions (E : Collaborators) (src_data : string) (ecc : Z)
    (fountain : bool) (w w1 : World) (yielded : list (Z * Z * Z)) :
  encode_iter E src_data ecc fountain w = (w1, Ok yielded) →
  w1 = w ∧
  Forall (fun e => (e.1.2, e.2) ∈ cell_positions E CELL_SPACING CELL_DIMENSIONS CELLS_OFFSET)
         yielded.
Proof.
  unfold encode_iter. destruct (encode_instream src_data ecc fountain) as [rss read_size].
  destruct (open_reader E w rss) as [instream|e]; [|done].
  intros [= <- <-]. split; [done|].
  apply Forall_forall. intros e (k & [x y] & -> & Hk)%elem_of_lookup_imap.
  cbn [fst snd]. apply list_elem_of_lookup_2 in Hk.
  unfold interleave in Hk. apply list_elem_of_omap in Hk as (i & _ & Hi).
  by apply list_elem_of_lookup_2 in Hi.
Qed.

(** X13.  [encode] draws inside the tiles of the cells and nowhere else:
    when the encoder's tiles are [CELL_SIZE] x [CELL_SIZE], a pixel that no
    cell's tile covers is in the saved image what it is in the template,
    whatever the payload. *)
Theorem encode_keeps_template_outside_cells (E : Collaborators) (w : World)
    (src_data dst_image : string) (dark : bool) (ecc : Z) (fountain : bool) (u v : Z) :
  draws_tiles (new_CimbEncoder E dark BITS_PER_SYMBOL BITS_PER_COLOR) →
  (encode E src_data dst_image dark ecc fountain w).2 = Ok tt →
  (∀ xy, xy ∈ cell_positions E CELL_SPACING CELL_DIMENSIONS CELLS_OFFSET →
         ¬ covers xy u v) →
  ∃ img,
    image_files (encode E src_data dst_image dark ecc fountain w).1 !! dst_image = Some img ∧
    getpixel img u v = getpixel (_get_image_template E TOTAL_SIZE dark) u v.
Proof.
  intros Htiles Hok Hclear. unfold encode, mbind, py_bind in *.
  destruct (encode_iter E src_data ecc fountain w) as [w1 [yielded|e]] eqn:Hiter;
    [|done].
  destruct (encode_iter_positions _ _ _ _ _ _ _ Hiter) as [-> Hcells].
  eexists. split; [cbn; apply lookup_insert_eq|].
  unfold getpixel, inside, width, height.
  rewrite size_encode_paste. rewrite encode_paste_untouched; [done|done|].
  eapply Forall_impl; [exact Hcells|]. cbn beta. intros e He. by apply Hclear.
Qed.

Lemma encode_keeps_template_outside_cells_witness :
  ∃ img,
    image_files (encode page_collaborators "in.bin" "page.png" true 0 false
                   (one_file_world "in.bin" sixteen_bytes)).1 !! "page.png" = Some img ∧
    getpixel img 3 1000 = getpixel (_get_image_template page_collaborators TOTAL_SIZE true) 3 1000.
Proof.
  apply encode_keeps_template_outside_cells.
  - apply solid_draws_tiles.
  - unfold encode, encode_iter, mbind, py_bind. cbn [encode_instream truthy Z.eqb negb].
    cbn [open_reader one_file_world data_files]. by rewrite lookup_singleton_eq.
  - intros xy (r & c & _ & _ & ->)%grid_cell_elem.
    unfold covers, CELLS_OFFSET, CELL_SPACING, CELL_SIZE. cbn [fst snd]. lia.
Defined.

(** X14.  [encode] changes no file but [dst_image]: every data file and
    every image file of another name is as it was, no temporary directory
    is made, and when [encode] raises nothing at all has changed. *)
Theorem encode_changes_only_dst_image (E : Collaborators) (w : World)
    (src_data dst_image : string) (dark : bool) (ecc : Z) (fountain : bool) :
  let w1 := (encode E src_data dst_image dark ecc fountain w).1 in
  (∀ name, name ≠ dst_image →
     image_files w1 !! name = image_files w !! name ∧
     data_files w1 !! name = data_files w !! name) ∧
  tempdirs w1 = tempdirs w ∧ next_tempdir w1 = next_tempdir w ∧
  (∀ e, (encode E src_data dst_image dark ecc fountain w).2 = Raise e → w1 = w).
Proof.
  cbn zeta. unfold encode, mbind, py_bind.
  destruct (encode_iter E src_data ecc fountain w) as [w1 [yielded|e]] eqn:Hiter.
  - destruct (encode_iter_positions _ _ _ _ _ _ _ Hiter) as [-> _].
    cbn [fst snd Image_save store_image image_files data_files tempdirs next_tempdir].
    split; [|done]. intros name Hname. by rewrite lookup_insert_ne.
  - assert (w1 = w) as ->; [|done].
    unfold encode_iter in Hiter.
    destruct (encode_instream src_data ecc fountain) as [rss read_size].
    destruct (open_reader E w rss); by injection Hiter.
Qed.

(** ** One cell, rendered and read back *)

(** X15.  What the loop of [encode] pastes for a cell is what
    [_decode_cell] reads back there.  When the encoder draws tiles of
    [CELL_SIZE] x [CELL_SIZE], the classifiers read an unspoilt tile, the
    tile lies on the page and no tile pasted later overlaps it, the cell
    decodes to the bits it was rendered from, at the offset (0, 0) and at
    distance 0, for a drift hint without drift that tries (0, 0) first. *)
Theorem paste_then_decode_cell (enc : CimbEncoder) (dec : CimbDecoder) (im : Image)
    (before after : list (Z * Z * Z)) (bits x y : Z) (drift : Drift) :
  draws_tiles enc → reads_clean_tiles enc dec →
  0 <= bits < 2 ^ BITS_PER_OP →
  0 <= x → x + CELL_SIZE <= width im → 0 <= y → y + CELL_SIZE <= height im →
  Forall (fun e => CELL_SIZE <= Z.abs (e.1.2 - x) ∨ CELL_SIZE <= Z.abs (e.2 - y)) after →
  drift_x drift = 0 → drift_y drift = 0 → head (pairs drift) = Some (0, 0) →
  let page := encode_paste enc im (before ++ (bits, x, y) :: after) in
  _decode_cell dec page page x y drift = Ok (bits, 0, 0, 0).
Proof.
  intros Henc Hread Hbits Hx0 Hx1 Hy0 Hy1 Hafter Hdx Hdy Hhead page.
  apply (decode_cell_clean enc dec Hread); try done.
  intros a b Ha Hb. unfold getpixel, inside, page.
  unfold width, height in *. rewrite size_encode_paste, Henc. cbn [fst snd].
  destruct (Z.leb_spec 0 (x + a)), (Z.ltb_spec (x + a) (size im).1),
    (Z.leb_spec 0 (y + b)), (Z.ltb_spec (y + b) (size im).2); try lia.
  destruct (Z.leb_spec 0 a), (Z.ltb_spec a CELL_SIZE),
    (Z.leb_spec 0 b), (Z.ltb_spec b CELL_SIZE); try lia.
  cbn [andb]. rewrite (encode_paste_last enc Henc).
  - f_equal; lia.
  - unfold covers. cbn [fst snd]. lia.
  - eapply Forall_impl; [exact Hafter|]. cbn beta. intros e He.
    unfold covers. cbn [fst snd]. lia.
Qed.

Lemma paste_then_decode_cell_witness :
  _decode_cell solid_decoder
    (encode_paste solid_encoder blank_page ([(5, 98, 8)] ++ (37, 8, 8) :: [(5, 17, 8)]))
    (encode_paste solid_encoder blank_page ([(5, 98, 8)] ++ (37, 8, 8) :: [(5, 17, 8)]))
    8 8 no_drift
  = Ok (37, 0, 0, 0).
Proof.
  apply (paste_then_decode_cell solid_encoder solid_decoder blank_page
           [(5, 98, 8)] [(5, 17, 8)] 37 8 8 no_drift).
  - apply solid_draws_tiles.
  - apply solid_reads_clean_tiles.
  - done.
  - done.
  - done.
  - done.
  - done.
  - constructor; [|constructor]. left. unfold CELL_SIZE. cbn [fst snd]. lia.
  - done.
  - done.
  - done.
Defined.
